(** * price-files-downloader.js: a shallow embedding and its properties

    The program fetches a page, extracts download links with a primary
    strategy (axios + cheerio) and a backup strategy (curl + cheerio),
    downloads the files in batches of [maxConcurrentDownloads], post-processes
    the downloaded files and writes a run summary.

    JavaScript strings are sequences of UTF-16 code units and are modelled as
    [list N].  Effects are modelled by a writer/exception monad over a trace
    of events; every answer of the outside world (network, file system, child
    processes, completion order of concurrent downloads) is read from a
    [World] record of oracles. *)

From Stdlib Require Import String Ascii DecimalString.
From Stdlib Require DecimalNat.
From Stdlib Require Import List NArith Arith Bool Lia Permutation Sorted.
Import ListNotations.

(* ================================================================== *)
(** ** JavaScript strings *)
(* ================================================================== *)

Module JsString.

(** A string is its list of UTF-16 code units. *)
Definition jsstring : Type := list N.

(** Literals of the source, all ASCII, are written [js "..."]. *)
Definition js (s : string) : jsstring :=
  map N_of_ascii (list_ascii_of_string s).

Definition jseqb (a b : jsstring) : bool :=
  if list_eq_dec N.eq_dec a b then true else false.

(** [`${n}`] for a non-negative integer [n]. *)
Definition showNat (n : nat) : jsstring :=
  js (NilEmpty.string_of_uint (Nat.to_uint n)).

Definition between (lo hi c : N) : bool := ((lo <=? c) && (c <=? hi))%N.

(** The character class [a-zA-Z0-9.-] of the regular expression in
    [downloadFile]. *)
Definition inClass (c : N) : bool :=
  between 97 122 c || between 65 90 c || between 48 57 c
  || (c =? 46)%N || (c =? 45)%N.

Definition underscore : N := 95.

(** [s.startsWith("/")] *)
Definition startsWithSlash (s : jsstring) : bool :=
  match s with
  | c :: _ => (c =? 47)%N
  | [] => false
  end.

(** The last element of [s.split("/")]: what follows the last slash, the
    whole string when there is none. *)
Fixpoint lastSegment (s : jsstring) : jsstring :=
  match s with
  | [] => []
  | c :: r => if (c =? 47)%N
              then lastSegment r
              else if existsb (N.eqb 47) r then lastSegment r else s
  end.

(** White space and line terminators removed by [String.prototype.trim]. *)
Definition isWhiteSpace (c : N) : bool :=
  between 9 13 c || (c =? 32)%N || (c =? 160)%N || (c =? 5760)%N
  || between 8192 8202 c || (c =? 8232)%N || (c =? 8233)%N
  || (c =? 8239)%N || (c =? 8287)%N || (c =? 12288)%N || (c =? 65279)%N.

Fixpoint trimStart (s : jsstring) : jsstring :=
  match s with
  | c :: r => if isWhiteSpace c then trimStart r else s
  | [] => []
  end.

Definition trim (s : jsstring) : jsstring :=
  rev (trimStart (rev (trimStart s))).

(** [s.endsWith(suffix)] *)
Definition endsWith (s suffix : jsstring) : bool :=
  jseqb (skipn (length s - length suffix) s) suffix
  && (length suffix <=? length s).

(** [s.toLowerCase()] on the ASCII letters.  The only use in the program is
    [filename.toLowerCase().endsWith(".zip")]; no code unit outside ASCII
    lower-cases to one of [.], [z], [i], [p], so the test is unaffected. *)
Definition toLowerCase (s : jsstring) : jsstring :=
  map (fun c => if between 65 90 c then (c + 32)%N else c) s.

End JsString.
Import JsString.

(* ================================================================== *)
(** ** Data model *)
(* ================================================================== *)

(** An entry of the [links] array: [{ url, filename }]. *)
Record Link : Type := mkLink { url : jsstring; filename : jsstring }.

(** [{ ...link, filePath }] *)
Record Downloaded : Type := mkDownloaded {
  d_url : jsstring; d_filename : jsstring; filePath : jsstring }.

(** [{ ...link, error: error.message }] *)
Record Failed : Type := mkFailed {
  f_url : jsstring; f_filename : jsstring; error : jsstring }.

(** The [results] object of [downloadAllFiles]. *)
Record Results : Type := mkResults {
  success : list Downloaded; failed : list Failed }.

(** The [metadata] object of [saveMetadata]. *)
Record Metadata : Type := mkMetadata {
  timestamp : jsstring;
  downloadDirectory : jsstring;
  totalFiles : nat;
  successfulDownloads : nat;
  failedDownloads : nat;
  failedFiles : list jsstring }.

(** What the program reads of an element matched by the selector:
    [attr("href")], [text()] and [attr("download")]; [None] is [undefined]. *)
Record Element : Type := mkElement {
  href : option jsstring;
  text : jsstring;
  download : option jsstring }.

(** A thrown [Error] object; the program only reads [message]. *)
Record JsError : Type := mkError { message : jsstring }.

(** [downloadFile]: the destination name of a link. *)
Definition sanitize (filename : jsstring) : jsstring :=
  map (fun c => if inClass c then c else underscore) filename.

(** [a || b] on strings that may be [undefined]: [a] when it is a non-empty
    string, otherwise [b]. *)
Definition orElse (a : option jsstring) (b : jsstring) : jsstring :=
  match a with
  | Some (c :: r) => c :: r
  | _ => b
  end.

(** [new URL(u)] for a URL of the shape [scheme://host/path], as [CONFIG.url]
    is: [protocol] keeps the colon, [host] stops at the first of [/?#]. *)
Fixpoint URL_protocol (u : jsstring) : jsstring :=
  match u with
  | [] => []
  | c :: r => if (c =? 58)%N then [c] else c :: URL_protocol r
  end.

Fixpoint takeHost (u : jsstring) : jsstring :=
  match u with
  | [] => []
  | c :: r => if (c =? 47)%N || (c =? 63)%N || (c =? 35)%N
              then [] else c :: takeHost r
  end.

Definition URL_host (u : jsstring) : jsstring :=
  takeHost (skipn (length (URL_protocol u) + 2) u).

Definition CONFIG_url : jsstring := js "https://www.konzum.hr/cjenici".
Definition CONFIG_selector : jsstring :=
  js ".js-price-lists-2025-05-15 a:not(.btn)".
Definition CONFIG_maxConcurrentDownloads : nat := 5.
Definition CONFIG_userAgent : jsstring :=
  js "Mozilla/5.0 (Windows NT 10.0; Win64; x64) AppleWebKit/537.36 (KHTML, like Gecko) Chrome/91.0.4472.124 Safari/537.36".

(** [`${baseUrl.protocol}//${baseUrl.host}${url}`] with
    [baseUrl = new URL(CONFIG.url)]. *)
Definition resolveAgainstBase (u : jsstring) : jsstring :=
  URL_protocol CONFIG_url ++ js "//" ++ URL_host CONFIG_url ++ u.

(** A URL is absolute when it starts with a scheme: a letter, then letters,
    digits, [+], [-] or [.], then a colon. *)
Fixpoint schemeRest (u : jsstring) : bool :=
  match u with
  | [] => false
  | c :: r =>
      if (c =? 58)%N then true
      else if between 97 122 c || between 65 90 c || between 48 57 c
              || (c =? 43)%N || (c =? 45)%N || (c =? 46)%N
           then schemeRest r else false
  end.

Definition isAbsoluteUrl (u : jsstring) : bool :=
  match u with
  | c :: r => (between 97 122 c || between 65 90 c) && schemeRest r
  | [] => false
  end.

(* ================================================================== *)
(** ** Events, log messages and the outside world *)
(* ================================================================== *)

Inductive Level : Type := LInfo | LWarn | LError.

(** One constructor per [logger] call of the source, with the values the
    template string interpolates. *)
Inductive LogMsg : Type :=
| MCreatedDownloadDir (dir : jsstring)
| MCreatedProcessingDir (dir : jsstring)
| MFetchingHtml (u : jsstring)
| MFound (n : nat)
| MErrorExtractingLinks (msg : jsstring)
| MDownloading (index : nat) (u path : jsstring)
| MDownloaded (index : nat) (name : jsstring)
| MErrorDownloading (index : nat) (u msg : jsstring)
| MProcessingBatch (k n : nat)
| MDownloadSummary (ok ko : nat)
| MProcessingFiles
| MExtractingZip (name : jsstring)
| MErrorExtracting (name msg : jsstring)
| MExtracted (name dir : jsstring)
| MCopied (name : jsstring)
| MErrorProcessing (name msg : jsstring)
| MFinishedProcessing
| MSavedMetadata (path : jsstring)
| MTryingCurl
| MCurlError (msg : jsstring)
| MFoundWithCurl (n : nat)
| MErrorParsingCurl (msg : jsstring)
| MStarting
| MPrimaryFailed (msg : jsstring)
| MTryingBackup
| MNoLinks
| MCompleted (ok total : nat)
| MJobFailed (msg : jsstring).

(** The text of each message, as the template strings build it. *)
Definition render (m : LogMsg) : jsstring :=
  match m with
  | MCreatedDownloadDir d => js "Created download directory: " ++ d
  | MCreatedProcessingDir d => js "Created processing directory: " ++ d
  | MFetchingHtml u => js "Fetching HTML from " ++ u
  | MFound n => js "Found " ++ showNat n ++ js " files to download"
  | MErrorExtractingLinks msg => js "Error extracting download links: " ++ msg
  | MDownloading i u p =>
      js "[" ++ showNat i ++ js "] Downloading: " ++ u ++ js " to " ++ p
  | MDownloaded i name =>
      js "[" ++ showNat i ++ js "] Successfully downloaded: " ++ name
  | MErrorDownloading i u msg =>
      js "[" ++ showNat i ++ js "] Error downloading " ++ u ++ js ": " ++ msg
  | MProcessingBatch k n =>
      js "Processing batch " ++ showNat k ++ js ": " ++ showNat n ++ js " files"
  | MDownloadSummary ok ko =>
      js "Download summary: " ++ showNat ok ++ js " successful, "
      ++ showNat ko ++ js " failed"
  | MProcessingFiles => js "Processing downloaded files..."
  | MExtractingZip name => js "Extracting zip file: " ++ name
  | MErrorExtracting name msg =>
      js "Error extracting " ++ name ++ js ": " ++ msg
  | MExtracted name dir =>
      js "Successfully extracted " ++ name ++ js " to " ++ dir
  | MCopied name => js "Copied " ++ name ++ js " to processing directory"
  | MErrorProcessing name msg =>
      js "Error processing file " ++ name ++ js ": " ++ msg
  | MFinishedProcessing => js "Finished processing downloaded files"
  | MSavedMetadata p => js "Saved download metadata to " ++ p
  | MTryingCurl => js "Trying to fetch page with curl as a backup method"
  | MCurlError msg => js "curl error: " ++ msg
  | MFoundWithCurl n => js "Found " ++ showNat n ++ js " files with curl"
  | MErrorParsingCurl msg => js "Error parsing curl output: " ++ msg
  | MStarting => js "=== Starting price files download job ==="
  | MPrimaryFailed msg => js "Primary extraction method failed: " ++ msg
  | MTryingBackup => js "Trying backup method with curl..."
  | MNoLinks => js "No download links found. Job completed with no downloads."
  | MCompleted ok total =>
      js "=== Job completed successfully: " ++ showNat ok ++ js "/"
      ++ showNat total ++ js " files downloaded ==="
  | MJobFailed msg => js "Job failed: " ++ msg
  end.

(** What a run does that is visible outside of it, in the order it does it. *)
Inductive Event : Type :=
| ELog (lvl : Level) (msg : LogMsg)
| EExistsSync (path : jsstring)
| EMkdirSync (path : jsstring)
| EAxiosGet (u : jsstring)                      (* the page request *)
| EWriteLinks (path : jsstring) (links : list Link)
| EWriteMetadata (path : jsstring) (m : Metadata)
| EAxiosStream (index : nat) (u : jsstring)     (* a download request is issued *)
| ECreateWriteStream (index : nat) (path : jsstring)
| ESettled (index : nat) (resolved : bool)      (* a download promise settles *)
| EExecCurl (cmd : jsstring)
| EExecUnzip (cmd : jsstring)
| ECopyFileSync (src dst : jsstring).

(** Functions of Node's [path] module and of cheerio that the program calls.
    They are pure; the program's properties below hold for any of them. *)
Record Lib : Type := mkLib {
  path_join : jsstring -> jsstring -> jsstring;
  path_basename : jsstring -> jsstring;
  path_basename_ext : jsstring -> jsstring -> jsstring;
  (** [$(CONFIG.selector)] on [cheerio.load(html)], in document order *)
  cheerio_select : jsstring -> list Element }.

(** How the write stream of a download ends: it emits [close], it emits
    [error], or it emits neither.  The last happens when the response body
    fails after the headers have arrived: [pipe] then leaves the write stream
    open, and [downloadFile] listens to the write stream only. *)
Inductive WriteEnd : Type :=
| WClose
| WError (e : JsError)
| WNever.

(** The answers of the outside world.  Every call site that runs once per
    run has one answer; the others are indexed by what distinguishes their
    calls: the 1-based [index] of a download, the position of a file in
    [downloadResults.success].  [Some e] and [inl e] are a thrown or rejected
    [e]. *)
Record World : Type := mkWorld {
  dirname : jsstring;                       (* __dirname *)
  today : jsstring;                         (* the date part of CONFIG.downloadDir *)
  now : jsstring;                           (* new Date().toISOString() in saveMetadata *)
  setup_existsSync : jsstring -> bool;
  setup_mkdirSync : jsstring -> option JsError;
  axios_get : JsError + jsstring;           (* response.data of the page *)
  write_links : option JsError;
  exec_curl : JsError + jsstring;           (* stdout of curl *)
  axios_stream : nat -> Link -> option JsError;  (* await axios(...) of a download *)
  write_stream : nat -> Link -> WriteEnd;   (* the events of its writer *)
  (** for the batch starting at offset [i], which download of the batch
      makes its next step, as positions in the list of those that can make
      one (those waiting for the answer to their request, then those whose
      write stream will end) *)
  completion : nat -> list nat;
  proc_existsSync : nat -> jsstring -> bool;
  proc_mkdirSync : nat -> jsstring -> option JsError;
  exec_unzip : nat -> jsstring -> option JsError;
  fs_copyFileSync : nat -> jsstring -> jsstring -> option JsError;
  write_metadata : option JsError }.

(* ================================================================== *)
(** ** The monad of the embedding *)
(* ================================================================== *)

(** How a piece of code ends: with a value, with a thrown error (or rejected
    promise), or not at all. *)
Inductive Res (A : Type) : Type :=
| Ok (a : A)
| Throw (e : JsError)
| Diverge.
Arguments Ok {A} a.
Arguments Throw {A} e.
Arguments Diverge {A}.

(** The events emitted, oldest first, and the outcome. *)
Definition M (A : Type) : Type := (list Event * Res A)%type.

Definition ret {A} (a : A) : M A := ([], Ok a).
Definition throw {A} (e : JsError) : M A := ([], Throw e).
Definition diverge {A} : M A := ([], Diverge).
Definition emit (ev : Event) : M unit := ([ev], Ok tt).

Definition bind {A B} (m : M A) (k : A -> M B) : M B :=
  match snd m with
  | Ok a => (fst m ++ fst (k a), snd (k a))
  | Throw e => (fst m, Throw e)
  | Diverge => (fst m, Diverge)
  end.

(** [try { m } catch (e) { h e }] *)
Definition try_catch {A} (m : M A) (h : JsError -> M A) : M A :=
  match snd m with
  | Throw e => (fst m ++ fst (h e), snd (h e))
  | _ => m
  end.

Declare Scope js_scope.
Delimit Scope js_scope with js.
Notation "x <- m ;; k" := (bind m (fun x => k))
  (at level 61, m at next level, right associativity) : js_scope.
Notation "m ;; k" := (bind m (fun _ => k))
  (at level 61, right associativity) : js_scope.
Local Open Scope js_scope.

Definition log (lvl : Level) (msg : LogMsg) : M unit := emit (ELog lvl msg).

(** A call that may throw: the event, then the world's answer. *)
Definition call (ev : Event) (answer : option JsError) : M unit :=
  emit ev ;;
  match answer with
  | Some e => throw e
  | None => ret tt
  end.

Definition fetched (ev : Event) (answer : JsError + jsstring) : M jsstring :=
  emit ev ;;
  match answer with
  | inl e => throw e
  | inr data => ret data
  end.

(** [for (const x of xs) body], with the position of [x]. *)
Fixpoint forOf {A} (k : nat) (xs : list A) (body : nat -> A -> M unit)
  : M unit :=
  match xs with
  | [] => ret tt
  | x :: r => body k x ;; forOf (S k) r body
  end.

(** [$(sel).each((i, element) => { ...; links.push(link) })] *)
Fixpoint each (i : nat) (els : list Element) (body : nat -> Element -> M Link)
  : M (list Link) :=
  match els with
  | [] => ret []
  | el :: r => link <- body i el ;; links <- each (S i) r body ;;
               ret (link :: links)
  end.

(* ================================================================== *)
(** ** The program *)
(* ================================================================== *)

Section Program.

Variable lib : Lib.
Variable w : World.

(** [CONFIG.downloadDir] and [CONFIG.fileProcessingDir] *)
Definition CONFIG_downloadDir : jsstring :=
  path_join lib (path_join lib (dirname w) (js "downloads")) (today w).

Definition CONFIG_fileProcessingDir : jsstring :=
  path_join lib (dirname w) (js "processing").

Definition setupDirectories : M unit :=
  emit (EExistsSync CONFIG_downloadDir) ;;
  (if negb (setup_existsSync w CONFIG_downloadDir)
   then call (EMkdirSync CONFIG_downloadDir)
             (setup_mkdirSync w CONFIG_downloadDir) ;;
        log LInfo (MCreatedDownloadDir CONFIG_downloadDir)
   else ret tt) ;;
  emit (EExistsSync CONFIG_fileProcessingDir) ;;
  (if negb (setup_existsSync w CONFIG_fileProcessingDir)
   then call (EMkdirSync CONFIG_fileProcessingDir)
             (setup_mkdirSync w CONFIG_fileProcessingDir) ;;
        log LInfo (MCreatedProcessingDir CONFIG_fileProcessingDir)
   else ret tt).

(** The [TypeError] of a method call on [undefined]. *)
Definition typeError (method : jsstring) : JsError :=
  mkError (js "Cannot read properties of undefined (reading '"
           ++ method ++ js "')").

(** [let absoluteUrl = url; if (url.startsWith("/")) absoluteUrl = ...] *)
Definition absoluteUrlOf (href : option jsstring) : M jsstring :=
  match href with
  | None => throw (typeError (js "startsWith"))
  | Some u => ret (if startsWithSlash u then resolveAgainstBase u else u)
  end.

Definition placeholder (i : nat) : jsstring :=
  js "file-" ++ showNat i ++ js ".csv".

(** The callback of [each] in [extractDownloadLinks]. *)
Definition primaryLink (i : nat) (element : Element) : M Link :=
  let url := href element in
  let text := trim (text element) in
  let downloadAttr := download element in
  let filename := orElse downloadAttr text in
  filename <- match filename with
              | [] => match url with
                      | None => throw (typeError (js "split"))
                      | Some u => ret (lastSegment u)
                      end
              | _ => ret filename
              end ;;
  absoluteUrl <- absoluteUrlOf url ;;
  ret {| url := absoluteUrl;
         filename := orElse (Some filename) (placeholder i) |}.

(** The callback of [each] in [fetchLinksWithCurl]. *)
Definition fallbackLink (i : nat) (element : Element) : M Link :=
  let url := href element in
  let text := trim (text element) in
  absoluteUrl <- absoluteUrlOf url ;;
  ret {| url := absoluteUrl;
         filename := orElse (Some text) (placeholder i) |}.

(** The other version of the script reads the links in a browser page
    (puppeteer): [link.href] is the URL as the browser resolved it, and the
    generated name carries [Date.now()]. *)
Definition browserLink (resolvedHref : jsstring) (dateNow : nat)
    (element : Element) : Link :=
  {| url := resolvedHref;
     filename :=
       orElse (download element)
         (orElse (Some (trim (text element)))
            (orElse (Some (lastSegment resolvedHref))
               (js "file-" ++ showNat dateNow ++ js ".csv"))) |}.

Definition extractDownloadLinks : M (list Link) :=
  log LInfo (MFetchingHtml CONFIG_url) ;;
  try_catch
    (data <- fetched (EAxiosGet CONFIG_url) (axios_get w) ;;
     links <- each 0 (cheerio_select lib data) primaryLink ;;
     log LInfo (MFound (length links)) ;;
     call (EWriteLinks (path_join lib CONFIG_downloadDir (js "_links.json"))
                       links)
          (write_links w) ;;
     ret links)
    (fun error =>
       log LError (MErrorExtractingLinks (message error)) ;;
       throw error).

Definition dquote : jsstring := [34%N].

Definition curlCommand : jsstring :=
  js "curl -A " ++ dquote ++ CONFIG_userAgent ++ dquote
  ++ js " -s " ++ dquote ++ CONFIG_url ++ dquote.

Definition fetchLinksWithCurl : M (list Link) :=
  log LInfo MTryingCurl ;;
  emit (EExecCurl curlCommand) ;;
  match exec_curl w with
  | inl error =>
      log LError (MCurlError (message error)) ;;
      throw error
  | inr stdout =>
      try_catch
        (links <- each 0 (cheerio_select lib stdout) fallbackLink ;;
         log LInfo (MFoundWithCurl (length links)) ;;
         ret links)
        (fun parseError =>
           log LError (MErrorParsingCurl (message parseError)) ;;
           throw parseError)
  end.

(** [downloadFile] up to its [await]: runs when [batch.map] calls it. *)
Definition downloadFile_request (fileInfo : Link) (index : nat) : M unit :=
  let sanitizedFilename := sanitize (filename fileInfo) in
  let filePath := path_join lib CONFIG_downloadDir sanitizedFilename in
  log LInfo (MDownloading index (url fileInfo) filePath) ;;
  emit (EAxiosStream index (url fileInfo)).

(** [downloadFile] from the answer to its request up to the promise that
    it returns: the request throws (logged and rethrown), or the write
    stream is created and the response piped into it. *)
Definition downloadFile_response (fileInfo : Link) (index : nat) : M unit :=
  let sanitizedFilename := sanitize (filename fileInfo) in
  let filePath := path_join lib CONFIG_downloadDir sanitizedFilename in
  match axios_stream w index fileInfo with
  | Some error =>
      log LError (MErrorDownloading index (url fileInfo) (message error)) ;;
      throw error
  | None => emit (ECreateWriteStream index filePath)
  end.

(** The promise that [downloadFile] returns: the write stream emits [error]
    (the promise rejects) or [close] (logged, it resolves with [filePath]);
    when it emits neither, the promise stays pending for ever. *)
Definition downloadFile_writer (fileInfo : Link) (index : nat)
  : M jsstring :=
  let sanitizedFilename := sanitize (filename fileInfo) in
  let filePath := path_join lib CONFIG_downloadDir sanitizedFilename in
  match write_stream w index fileInfo with
  | WError err => throw err
  | WClose =>
      log LInfo (MDownloaded index sanitizedFilename) ;;
      ret filePath
  | WNever => diverge
  end.

(** One download taken alone, from the answer to its request on. *)
Definition downloadFile_settle (fileInfo : Link) (index : nat)
  : M jsstring :=
  downloadFile_response fileInfo index ;;
  downloadFile_writer fileInfo index.

Definition pushSuccess (results : Results) (link : Link) (path : jsstring)
  : Results :=
  {| success := success results
                ++ [mkDownloaded (url link) (filename link) path];
     failed := failed results |}.

Definition pushFailed (results : Results) (link : Link) (e : JsError)
  : Results :=
  {| success := success results;
     failed := failed results
               ++ [mkFailed (url link) (filename link) (message e)] |}.

(** The callbacks of [.then] and [.catch] in [downloadAllFiles]. *)
Definition onFulfilled (results : Results) (entry : nat * Link)
    (filePath : jsstring) : M Results :=
  emit (ESettled (fst entry) true) ;;
  ret (pushSuccess results (snd entry) filePath).

Definition onRejected (results : Results) (entry : nat * Link)
    (error : JsError) : M Results :=
  emit (ESettled (fst entry) false) ;;
  ret (pushFailed results (snd entry) error).

(** The answer to the request of a download arrives: [Some results'] when
    the download has settled by this (the request failed), [None] when it
    now waits for its write stream. *)
Definition respond (results : Results) (entry : nat * Link)
  : M (option Results) :=
  try_catch
    (downloadFile_response (snd entry) (fst entry) ;; ret None)
    (fun error =>
       results' <- onRejected results entry error ;; ret (Some results')).

(** The write stream of a download ends. *)
Definition finish (results : Results) (entry : nat * Link) : M Results :=
  try_catch
    (filePath <- downloadFile_writer (snd entry) (fst entry) ;;
     onFulfilled results entry filePath)
    (fun error => onRejected results entry error).

(** Whether the write stream of a download emits neither [close] nor
    [error]. *)
Definition neverCloses (entry : nat * Link) : bool :=
  match write_stream w (fst entry) (snd entry) with
  | WNever => true
  | _ => false
  end.

Definition removeAt {A} (k : nat) (l : list A) : list A :=
  firstn k l ++ skipn (S k) l.

(** [await Promise.all(promises)].  The downloads of a batch are [waiting]
    for the answer to their request, [writing] their file, or [stuck] with a
    write stream that never ends.  One download that can make a step makes
    it, as the world chooses; when none is left that can, the batch is over
    if no download is stuck, and [Promise.all] stays pending otherwise.
    [n] bounds the number of steps: two for each download are enough. *)
Fixpoint settleAll (n : nat) (waiting writing stuck : list (nat * Link))
    (choices : list nat) (results : Results) : M Results :=
  match waiting ++ writing with
  | [] => match stuck with
          | [] => ret results
          | _ => diverge
          end
  | first :: _ =>
      match n with
      | 0 => diverge
      | S n' =>
          let k := hd 0 choices mod length (waiting ++ writing) in
          if k <? length waiting
          then
            let entry := nth k waiting first in
            answer <- respond results entry ;;
            match answer with
            | Some results' =>
                settleAll n' (removeAt k waiting) writing stuck
                          (tl choices) results'
            | None =>
                if neverCloses entry
                then settleAll n' (removeAt k waiting) writing
                               (stuck ++ [entry]) (tl choices) results
                else settleAll n' (removeAt k waiting) (writing ++ [entry])
                               stuck (tl choices) results
            end
          else
            let entry := nth (k - length waiting) writing first in
            results' <- finish results entry ;;
            settleAll n' waiting (removeAt (k - length waiting) writing)
                      stuck (tl choices) results'
      end
  end.

(** The [for] loop of [downloadAllFiles] from offset [i]; [Diverge] when
    [fuel] iterations do not end it, or when a batch never ends. *)
Fixpoint batchLoop (size fuel i : nat) (links : list Link)
    (results : Results) : M Results :=
  if i <? length links then
    match fuel with
    | 0 => diverge
    | S fuel' =>
        let batch := firstn size (skipn i links) in
        log LInfo (MProcessingBatch (i / size + 1) (length batch)) ;;
        let promises := combine (seq (i + 1) (length batch)) batch in
        forOf 0 promises
          (fun _ p => downloadFile_request (snd p) (fst p)) ;;
        results' <- settleAll (2 * length promises) promises [] []
                      (completion w i) results ;;
        batchLoop size fuel' (i + size) links results'
    end
  else ret results.

Definition downloadAllFiles (links : list Link) : M Results :=
  results <- batchLoop CONFIG_maxConcurrentDownloads (length links) 0 links
               {| success := []; failed := [] |} ;;
  log LInfo (MDownloadSummary (length (success results))
                              (length (failed results))) ;;
  ret results.

(** The [try] block in the loop of [processDownloadedFiles], for the file
    at position [k] of [downloadResults.success]. *)
Definition processFile_try (k : nat) (file : Downloaded) : M unit :=
  let filename := path_basename lib (filePath file) in
  if endsWith (toLowerCase filename) (js ".zip")
  then
    log LInfo (MExtractingZip filename) ;;
    let extractDir :=
      path_join lib CONFIG_fileProcessingDir
                (path_basename_ext lib filename (js ".zip")) in
    emit (EExistsSync extractDir) ;;
    (if negb (proc_existsSync w k extractDir)
     then call (EMkdirSync extractDir) (proc_mkdirSync w k extractDir)
     else ret tt) ;;
    let cmd := js "unzip -o " ++ dquote ++ filePath file ++ dquote
               ++ js " -d " ++ dquote ++ extractDir ++ dquote in
    emit (EExecUnzip cmd) ;;
    match exec_unzip w k cmd with
    | Some error =>
        log LError (MErrorExtracting filename (message error)) ;;
        throw error
    | None => log LInfo (MExtracted filename extractDir)
    end
  else
    let destPath := path_join lib CONFIG_fileProcessingDir filename in
    call (ECopyFileSync (filePath file) destPath)
         (fs_copyFileSync w k (filePath file) destPath) ;;
    log LInfo (MCopied filename).

(** The body of the loop: the [try] block and its [catch]. *)
Definition processFile (k : nat) (file : Downloaded) : M unit :=
  let filename := path_basename lib (filePath file) in
  try_catch (processFile_try k file)
    (fun error => log LError (MErrorProcessing filename (message error))).

Definition processDownloadedFiles (downloadResults : Results) : M unit :=
  log LInfo MProcessingFiles ;;
  forOf 0 (success downloadResults) processFile ;;
  log LInfo MFinishedProcessing.

(** The [metadata] object literal of [saveMetadata]. *)
Definition metadataOf (downloadResults : Results) : Metadata :=
  {| timestamp := now w;
     downloadDirectory := CONFIG_downloadDir;
     totalFiles := length (success downloadResults)
                   + length (failed downloadResults);
     successfulDownloads := length (success downloadResults);
     failedDownloads := length (failed downloadResults);
     failedFiles := map f_filename (failed downloadResults) |}.

Definition saveMetadata (downloadResults : Results) : M Metadata :=
  let metadata := metadataOf downloadResults in
  let metadataPath := path_join lib CONFIG_downloadDir (js "_metadata.json") in
  call (EWriteMetadata metadataPath metadata) (write_metadata w) ;;
  log LInfo (MSavedMetadata metadataPath) ;;
  ret metadata.

(** The inner [try]/[catch] of [main]: the primary method, and the backup
    method when the primary throws. *)
Definition getLinks : M (list Link) :=
  try_catch extractDownloadLinks
    (fun error =>
       log LWarn (MPrimaryFailed (message error)) ;;
       log LInfo MTryingBackup ;;
       fetchLinksWithCurl).

(** What [main] does with a non-empty list of links. *)
Definition runDownloads (links : list Link) : M unit :=
  downloadResults <- downloadAllFiles links ;;
  processDownloadedFiles downloadResults ;;
  metadata <- saveMetadata downloadResults ;;
  log LInfo (MCompleted (successfulDownloads metadata)
                        (totalFiles metadata)).

(** The outer [try] block of [main]. *)
Definition mainTry : M unit :=
  setupDirectories ;;
  links <- getLinks ;;
  if length links =? 0
  then log LWarn MNoLinks
  else runDownloads links.

Definition main : M unit :=
  log LInfo MStarting ;;
  try_catch mainTry
    (fun error => log LError (MJobFailed (message error))).

End Program.

(* ================================================================== *)
(** ** Concrete libraries and worlds for running the model *)
(* ================================================================== *)

(** A [path] module that joins with a slash and takes what follows the last
    slash as base name, and a page whose matched elements are [els]. *)
Definition stripSuffix (s suffix : jsstring) : jsstring :=
  if endsWith s suffix then firstn (length s - length suffix) s else s.

Definition libWith (els : list Element) : Lib :=
  {| path_join := fun a b => a ++ js "/" ++ b;
     path_basename := lastSegment;
     path_basename_ext := fun p ext => stripSuffix (lastSegment p) ext;
     cheerio_select := fun _ => els |}.

(** A world in which every call succeeds and downloads settle in the order
    they were issued. *)
Definition calmWorld : World :=
  {| dirname := js "/app";
     today := js "2025-05-15";
     now := js "2025-05-15T06:00:00.000Z";
     setup_existsSync := fun _ => true;
     setup_mkdirSync := fun _ => None;
     axios_get := inr (js "<html>");
     write_links := None;
     exec_curl := inr (js "<html>");
     axios_stream := fun _ _ => None;
     write_stream := fun _ _ => WClose;
     completion := fun _ => [];
     proc_existsSync := fun _ _ => true;
     proc_mkdirSync := fun _ _ => None;
     exec_unzip := fun _ _ => None;
     fs_copyFileSync := fun _ _ _ => None;
     write_metadata := None |}.

Definition withPage (page curl : JsError + jsstring) (w : World) : World :=
  {| dirname := dirname w; today := today w; now := now w;
     setup_existsSync := setup_existsSync w;
     setup_mkdirSync := setup_mkdirSync w;
     axios_get := page;
     write_links := write_links w;
     exec_curl := curl;
     axios_stream := axios_stream w;
     write_stream := write_stream w;
     completion := completion w;
     proc_existsSync := proc_existsSync w;
     proc_mkdirSync := proc_mkdirSync w;
     exec_unzip := exec_unzip w;
     fs_copyFileSync := fs_copyFileSync w;
     write_metadata := write_metadata w |}.

Definition withDownloads (request : nat -> Link -> option JsError)
    (order : nat -> list nat) (w : World) : World :=
  {| dirname := dirname w; today := today w; now := now w;
     setup_existsSync := setup_existsSync w;
     setup_mkdirSync := setup_mkdirSync w;
     axios_get := axios_get w;
     write_links := write_links w;
     exec_curl := exec_curl w;
     axios_stream := request;
     write_stream := write_stream w;
     completion := order;
     proc_existsSync := proc_existsSync w;
     proc_mkdirSync := proc_mkdirSync w;
     exec_unzip := exec_unzip w;
     fs_copyFileSync := fs_copyFileSync w;
     write_metadata := write_metadata w |}.

Definition withWrites (writes : nat -> Link -> WriteEnd) (w : World)
  : World :=
  {| dirname := dirname w; today := today w; now := now w;
     setup_existsSync := setup_existsSync w;
     setup_mkdirSync := setup_mkdirSync w;
     axios_get := axios_get w;
     write_links := write_links w;
     exec_curl := exec_curl w;
     axios_stream := axios_stream w;
     write_stream := writes;
     completion := completion w;
     proc_existsSync := proc_existsSync w;
     proc_mkdirSync := proc_mkdirSync w;
     exec_unzip := exec_unzip w;
     fs_copyFileSync := fs_copyFileSync w;
     write_metadata := write_metadata w |}.

Definition withProcessing (unzip : nat -> jsstring -> option JsError)
    (copy : nat -> jsstring -> jsstring -> option JsError) (w : World)
  : World :=
  {| dirname := dirname w; today := today w; now := now w;
     setup_existsSync := setup_existsSync w;
     setup_mkdirSync := setup_mkdirSync w;
     axios_get := axios_get w;
     write_links := write_links w;
     exec_curl := exec_curl w;
     axios_stream := axios_stream w;
     write_stream := write_stream w;
     completion := completion w;
     proc_existsSync := proc_existsSync w;
     proc_mkdirSync := proc_mkdirSync w;
     exec_unzip := unzip;
     fs_copyFileSync := copy;
     write_metadata := write_metadata w |}.

(** Seven links, as many as the page of a usual day lists in two batches. *)
Definition linkNo (n : nat) : Link :=
  {| url := js "https://www.konzum.hr/cjenici/" ++ showNat n;
     filename := js "Cjenik " ++ showNat n ++ js ".csv" |}.

Definition sevenLinks : list Link := map linkNo (seq 1 7).

Definition ETIMEDOUT : JsError := mkError (js "timeout of 120000ms exceeded").
Definition ENOTFOUND : JsError :=
  mkError (js "getaddrinfo ENOTFOUND www.konzum.hr").
Definition CURLFAIL : JsError := mkError (js "Command failed: curl").

(** The requests of downloads 2 and 6 fail; the others succeed.  In each
    batch the requests are answered last to first, and the files are then
    written in that order. *)
Definition flakyWorld : World :=
  withDownloads
    (fun index _ => if (index =? 2) || (index =? 6) then Some ETIMEDOUT
                    else None)
    (fun _ => [4; 3; 2; 1; 0])
    calmWorld.

Definition ENOSPC : JsError :=
  mkError (js "ENOSPC: no space left on device").

(** The server answers every request; the body of download 2 breaks off
    after the headers, so that its write stream is never ended. *)
Definition stallingWorld : World :=
  withWrites (fun index _ => if index =? 2 then WNever else WClose)
             calmWorld.

(** Every request is answered; the disk is full when file 3 is written. *)
Definition fullDiskWorld : World :=
  withWrites (fun index _ => if index =? 3 then WError ENOSPC else WClose)
             calmWorld.

(** A world in which no archive can be extracted and the copy of the file
    at position 1 fails. *)
Definition brokenDisk : World :=
  withProcessing (fun _ _ => Some (mkError (js "Command failed: unzip")))
                 (fun k _ _ => if k =? 1
                               then Some (mkError (js "ENOSPC: no space left"))
                               else None)
                 calmWorld.

Definition threeFiles : Results :=
  {| success := [mkDownloaded (js "u1") (js "a.zip") (js "/d/a.zip");
                 mkDownloaded (js "u2") (js "b.csv") (js "/d/b.csv");
                 mkDownloaded (js "u3") (js "c.csv") (js "/d/c.csv")];
     failed := [] |}.

(* ================================================================== *)
(** ** Vocabulary of the statements *)
(* ================================================================== *)

(** The links with the 1-based index [downloadAllFiles] gives them, from
    offset [i]. *)
Fixpoint number (i : nat) (links : list Link) : list (nat * Link) :=
  match links with
  | [] => []
  | l :: r => (S i, l) :: number (S i) r
  end.

(** The batch of the download with the given 1-based index. *)
Definition batchOf (index : nat) : nat :=
  (index - 1) / CONFIG_maxConcurrentDownloads.

(** The entries that the downloads of [ps] contribute to [results.success]
    and [results.failed], each by the outcome of its own download. *)
Definition resolvedEntries (lib : Lib) (w : World) (ps : list (nat * Link))
  : list Downloaded :=
  flat_map (fun p => match snd (downloadFile_settle lib w (snd p) (fst p)) with
                     | Ok path =>
                         [mkDownloaded (url (snd p)) (filename (snd p)) path]
                     | _ => []
                     end) ps.

Definition rejectedEntries (lib : Lib) (w : World) (ps : list (nat * Link))
  : list Failed :=
  flat_map (fun p => match snd (downloadFile_settle lib w (snd p) (fst p)) with
                     | Throw e =>
                         [mkFailed (url (snd p)) (filename (snd p))
                                   (message e)]
                     | _ => []
                     end) ps.

(** The results once the downloads [ps] have settled: the entries of [ps]
    added, each to the list that the outcome of its own download selects. *)
Definition settled (lib : Lib) (w : World) (results : Results)
    (ps : list (nat * Link)) : Results :=
  {| success := success results ++ resolvedEntries lib w ps;
     failed := failed results ++ rejectedEntries lib w ps |}.

(** The events of [batch.map]: the log line and the request of each
    download of the batch, in the order of the batch. *)
Definition requestsOf (lib : Lib) (w : World) (promises : list (nat * Link))
  : list Event :=
  flat_map (fun p =>
              [ELog LInfo (MDownloading (fst p) (url (snd p))
                             (path_join lib (CONFIG_downloadDir lib w)
                                        (sanitize (filename (snd p)))));
               EAxiosStream (fst p) (url (snd p))]) promises.

(** Whether the download of an indexed link rejects. *)
Definition rejects (lib : Lib) (w : World) (p : nat * Link) : bool :=
  match snd (downloadFile_settle lib w (snd p) (fst p)) with
  | Throw _ => true
  | _ => false
  end.

(** The indices of the downloads that settle, and of those requested, in
    the order of the trace. *)
Definition settledIndices (t : list Event) : list nat :=
  flat_map (fun e => match e with ESettled i _ => [i] | _ => [] end) t.

Definition requestedIndices (t : list Event) : list nat :=
  flat_map (fun e => match e with EAxiosStream i _ => [i] | _ => [] end) t.

(** Whether the download of an indexed link never settles. *)
Definition stalled (lib : Lib) (w : World) (p : nat * Link) : bool :=
  match snd (downloadFile_settle lib w (snd p) (fst p)) with
  | Diverge => true
  | _ => false
  end.

Definition settles (lib : Lib) (w : World) (p : nat * Link) : bool :=
  negb (stalled lib w p).

(** The order in which the downloads of a batch settle, by the steps that
    [settleAll] makes: a download settles when its request fails, or when
    its write stream ends. *)
Fixpoint settleOrder (w : World) (n : nat) (waiting writing : list (nat * Link))
    (choices : list nat) : list (nat * Link) :=
  match waiting ++ writing with
  | [] => []
  | first :: _ =>
      match n with
      | 0 => []
      | S n' =>
          let k := hd 0 choices mod length (waiting ++ writing) in
          if k <? length waiting
          then
            let entry := nth k waiting first in
            match axios_stream w (fst entry) (snd entry) with
            | Some _ =>
                entry :: settleOrder w n' (removeAt k waiting) writing
                                     (tl choices)
            | None =>
                if neverCloses w entry
                then settleOrder w n' (removeAt k waiting) writing
                                 (tl choices)
                else settleOrder w n' (removeAt k waiting)
                                 (writing ++ [entry]) (tl choices)
            end
          else
            let entry := nth (k - length waiting) writing first in
            entry :: settleOrder w n' waiting
                                 (removeAt (k - length waiting) writing)
                                 (tl choices)
      end
  end.

Definition linkOfDownloaded (d : Downloaded) : Link :=
  {| url := d_url d; filename := d_filename d |}.

Definition linkOfFailed (f : Failed) : Link :=
  {| url := f_url f; filename := f_filename f |}.

Definition isCurl (e : Event) : bool :=
  match e with EExecCurl _ => true | _ => false end.

Definition isRequest (e : Event) : bool :=
  match e with EAxiosStream _ _ => true | _ => false end.

(** How many times the backup method ran its [curl]. *)
Definition fallbackInvocations (t : list Event) : nat :=
  length (filter isCurl t).

(** How many download requests were issued. *)
Definition downloadsStarted (t : list Event) : nat :=
  length (filter isRequest t).

(** The priority order in the specification's words: the first non-empty of
    the [download] attribute, the trimmed text and the last segment of the
    URL, and a generated name when all three are empty. *)
Fixpoint firstNonEmpty (candidates : list jsstring) (fallback : jsstring)
  : jsstring :=
  match candidates with
  | [] => fallback
  | [] :: r => firstNonEmpty r fallback
  | c :: _ => c
  end.

Definition filenameByPriority (i : nat) (el : Element) (u : jsstring)
  : jsstring :=
  firstNonEmpty [orElse (download el) []; trim (text el); lastSegment u]
                (placeholder i).

Definition notCurl (e : Event) : Prop := isCurl e = false.
Definition notRequest (e : Event) : Prop := isRequest e = false.

(** Both page fetches fail. *)
Definition offlineWorld : World :=
  withPage (inl ENOTFOUND) (inl CURLFAIL) calmWorld.

(* ================================================================== *)
(** ** Further vocabulary: the run as a whole *)
(* ================================================================== *)

(** The origin of [CONFIG.url]. *)
Definition origin : jsstring := js "https://www.konzum.hr".

Definition isWriteLinks (e : Event) : bool :=
  match e with EWriteLinks _ _ => true | _ => false end.

Definition isMetadataWrite (e : Event) : bool :=
  match e with EWriteMetadata _ _ => true | _ => false end.

(** Events that go to the network: the page request, [curl], a download. *)
Definition isNetwork (e : Event) : bool :=
  match e with
  | EAxiosGet _ | EExecCurl _ | EAxiosStream _ _ => true
  | _ => false
  end.

Definition isCopy (e : Event) : bool :=
  match e with ECopyFileSync _ _ => true | _ => false end.

Definition isCopiedLog (e : Event) : bool :=
  match e with ELog LInfo (MCopied _) => true | _ => false end.

Definition isUnzip (e : Event) : bool :=
  match e with EExecUnzip _ => true | _ => false end.


Definition isErrorLog (e : Event) : bool :=
  match e with ELog LError _ => true | _ => false end.

Definition mkdirs (t : list Event) : list jsstring :=
  flat_map (fun e => match e with EMkdirSync p => [p] | _ => [] end) t.

(** The batch number and the batch size of each "Processing batch" line. *)
Definition batchLogs (t : list Event) : list (nat * nat) :=
  flat_map (fun e => match e with
                     | ELog LInfo (MProcessingBatch k n) => [(k, n)]
                     | _ => []
                     end) t.

(** The test of [processDownloadedFiles] for an archive. *)
Definition isZip (lib : Lib) (file : Downloaded) : bool :=
  endsWith (toLowerCase (path_basename lib (filePath file))) (js ".zip").

(** Whether the request of a download fails (as opposed to its write). *)
Definition requestFails (w : World) (p : nat * Link) : bool :=
  match axios_stream w (fst p) (snd p) with Some _ => true | None => false end.

(** Whether a download gets as far as a file that is ended: its request is
    answered, and its write stream emits [close] or [error]. *)
Definition streams (w : World) (p : nat * Link) : bool :=
  negb (requestFails w p) && negb (neverCloses w p).

(** The order in which the downloads of a whole run settle, when every
    batch ends: batch after batch, each batch in the order the world
    chooses. *)
Fixpoint completionOrder (w : World) (size fuel i : nat) (links : list Link)
  : list (nat * Link) :=
  if i <? length links then
    match fuel with
    | 0 => []
    | S fuel' =>
        let batch := firstn size (skipn i links) in
        let promises := combine (seq (i + 1) (length batch)) batch in
        settleOrder w (2 * length promises) promises [] (completion w i)
        ++ completionOrder w size fuel' (i + size) links
    end
  else [].

(** The results of the seven downloads in [fullDiskWorld]. *)
Definition fullDiskResults : Results :=
  settled (libWith []) fullDiskWorld {| success := []; failed := [] |}
          (completionOrder fullDiskWorld CONFIG_maxConcurrentDownloads 7 0
                           sevenLinks).

(** The results of the seven downloads in [flakyWorld]. *)
Definition flakyResults : Results :=
  settled (libWith []) flakyWorld {| success := []; failed := [] |}
          (completionOrder flakyWorld CONFIG_maxConcurrentDownloads 7 0
                           sevenLinks).

(** At every moment of a trace, the downloads requested and not yet
    settled are at most [limit] (and never fewer than none). *)
Definition withinLimit (limit : nat) (t : list Event) : Prop :=
  forall p q, t = p ++ q ->
    length (settledIndices p) <= length (requestedIndices p)
    /\ length (requestedIndices p) <= length (settledIndices p) + limit.

Definition isBatchLog (e : Event) : bool :=
  match e with ELog LInfo (MProcessingBatch _ _) => true | _ => false end.

Definition isDownloadedLog (e : Event) : bool :=
  match e with ELog LInfo (MDownloaded _ _) => true | _ => false end.

(** Batches in order: the batch of the first is not after the batch of the
    second. *)
Definition batchBefore (p q : nat * Link) : Prop :=
  batchOf (fst p) <= batchOf (fst q).

(** A world whose page of links cannot be saved to [_links.json]. *)
Definition readOnlyWorld : World :=
  {| dirname := dirname calmWorld; today := today calmWorld;
     now := now calmWorld;
     setup_existsSync := setup_existsSync calmWorld;
     setup_mkdirSync := setup_mkdirSync calmWorld;
     axios_get := axios_get calmWorld;
     write_links := Some (mkError (js "EROFS: read-only file system"));
     exec_curl := exec_curl calmWorld;
     axios_stream := axios_stream calmWorld;
     write_stream := write_stream calmWorld;
     completion := completion calmWorld;
     proc_existsSync := proc_existsSync calmWorld;
     proc_mkdirSync := proc_mkdirSync calmWorld;
     exec_unzip := exec_unzip calmWorld;
     fs_copyFileSync := fs_copyFileSync calmWorld;
     write_metadata := write_metadata calmWorld |}.

(** A world in which no directory exists and none can be created. *)
Definition noDiskWorld : World :=
  {| dirname := dirname calmWorld; today := today calmWorld;
     now := now calmWorld;
     setup_existsSync := fun _ => false;
     setup_mkdirSync := fun _ => Some (mkError (js "EACCES: permission denied"));
     axios_get := axios_get calmWorld;
     write_links := write_links calmWorld;
     exec_curl := exec_curl calmWorld;
     axios_stream := axios_stream calmWorld;
     write_stream := write_stream calmWorld;
     completion := completion calmWorld;
     proc_existsSync := proc_existsSync calmWorld;
     proc_mkdirSync := proc_mkdirSync calmWorld;
     exec_unzip := exec_unzip calmWorld;
     fs_copyFileSync := fs_copyFileSync calmWorld;
     write_metadata := write_metadata calmWorld |}.

(** An [<a>] without [href]. *)
Definition bareAnchor : Element :=
  {| href := None; text := js "Cjenik"; download := None |}.

Definition anchor (h : string) (t : string) : Element :=
  {| href := Some (js h); text := js t; download := None |}.

Definition twoAnchors : list Element :=
  [anchor "/cjenici/1.csv" "Cjenik 1"; anchor "/cjenici/2.zip" ""].



(* ================================================================== *)
(** ** Examples: the model on concrete inputs *)
(* ================================================================== *)

Example base_origin :
  URL_protocol CONFIG_url ++ js "//" ++ URL_host CONFIG_url
  = js "https://www.konzum.hr".
Proof. reflexivity. Qed.

Example sanitize_example :
  sanitize (js "Cjenik 15.05.2025 (Zagreb).csv")
  = js "Cjenik_15.05.2025__Zagreb_.csv".
Proof. reflexivity. Qed.

Example lastSegment_example :
  lastSegment (js "/files/2025/cjenik.csv") = js "cjenik.csv"
  /\ lastSegment (js "cjenik.csv") = js "cjenik.csv"
  /\ lastSegment (js "/files/") = js "".
Proof. repeat split; reflexivity. Qed.

Example trim_example : trim (js "  Cjenik 1  ") = js "Cjenik 1".
Proof. reflexivity. Qed.

Example render_example :
  render (MProcessingBatch 2 2) = js "Processing batch 2: 2 files"
  /\ render (MCompleted 5 7)
     = js "=== Job completed successfully: 5/7 files downloaded ===".
Proof. split; reflexivity. Qed.

(** Seven links, downloads 2 and 6 time out: five successes, two failures,
    and the requests of the second batch come after the first has settled. *)
Example flaky_run :
  let r := downloadAllFiles (libWith []) flakyWorld sevenLinks in
  option_map (fun res => (map d_filename (success res),
                          map f_filename (failed res)))
             (match snd r with Ok res => Some res | _ => None end)
  = Some (map js ["Cjenik 5.csv"; "Cjenik 4.csv"; "Cjenik 3.csv";
                  "Cjenik 1.csv"; "Cjenik 7.csv"]%string,
          map js ["Cjenik 2.csv"; "Cjenik 6.csv"]%string)
  /\ flat_map (fun e => match e with
                        | EAxiosStream i _ => [(true, i)]
                        | ESettled i _ => [(false, i)]
                        | _ => []
                        end) (fst r)
     = [(true, 1); (true, 2); (true, 3); (true, 4); (true, 5);
        (false, 2); (false, 5); (false, 4); (false, 3); (false, 1);
        (true, 6); (true, 7); (false, 6); (false, 7)].
Proof. vm_compute. split; reflexivity. Qed.

(** Seven links, the body of download 2 breaks off: the four other
    downloads of the first batch settle, the batch never ends, and nothing of
    the second batch is requested. *)
Example stalling_run :
  let r := downloadAllFiles (libWith []) stallingWorld sevenLinks in
  snd r = Diverge
  /\ flat_map (fun e => match e with
                        | EAxiosStream i _ => [(true, i)]
                        | ESettled i _ => [(false, i)]
                        | _ => []
                        end) (fst r)
     = [(true, 1); (true, 2); (true, 3); (true, 4); (true, 5);
        (false, 1); (false, 3); (false, 4); (false, 5)].
Proof. vm_compute. split; reflexivity. Qed.

(* ================================================================== *)
(** ** The monad: outcomes and traces of composed code *)
(* ================================================================== *)

Lemma bind_ok {A B} {m : M A} (k : A -> M B) {a} :
  snd m = Ok a -> bind m k = (fst m ++ fst (k a), snd (k a)).
Proof. intros H. unfold bind. now rewrite H. Qed.

Lemma bind_pair {A B} t (a : A) (k : A -> M B) :
  bind (t, Ok a) k = (t ++ fst (k a), snd (k a)).
Proof. reflexivity. Qed.

Lemma bind_throw {A B} {m : M A} (k : A -> M B) {e} :
  snd m = Throw e -> bind m k = (fst m, Throw e).
Proof. intros H. unfold bind. now rewrite H. Qed.

Lemma bind_diverge {A B} {m : M A} (k : A -> M B) :
  snd m = Diverge -> bind m k = (fst m, Diverge).
Proof. intros H. unfold bind. now rewrite H. Qed.

Lemma try_catch_ok {A} {m : M A} h {a} :
  snd m = Ok a -> try_catch m h = m.
Proof. intros H. unfold try_catch. now rewrite H. Qed.

Lemma try_catch_throw {A} {m : M A} h {e} :
  snd m = Throw e -> try_catch m h = (fst m ++ fst (h e), snd (h e)).
Proof. intros H. unfold try_catch. now rewrite H. Qed.

(** A property of all events of a piece of code follows from the same
    property of its parts. *)
Lemma Forall_bind {A B} (Q : Event -> Prop) (m : M A) (k : A -> M B) :
  Forall Q (fst m) -> (forall a, Forall Q (fst (k a))) ->
  Forall Q (fst (bind m k)).
Proof.
  intros Hm Hk. unfold bind. destruct (snd m); cbn; auto.
  apply Forall_app; auto.
Qed.

Lemma Forall_try_catch {A} (Q : Event -> Prop) (m : M A) h :
  Forall Q (fst m) -> (forall e, Forall Q (fst (h e))) ->
  Forall Q (fst (try_catch m h)).
Proof.
  intros Hm Hh. unfold try_catch. destruct (snd m); cbn; auto.
  apply Forall_app; auto.
Qed.

Lemma Forall_call (Q : Event -> Prop) ev answer :
  Q ev -> Forall Q (fst (call ev answer)).
Proof. intros H. destruct answer; cbn; auto. Qed.

Lemma Forall_fetched (Q : Event -> Prop) ev answer :
  Q ev -> Forall Q (fst (fetched ev answer)).
Proof. intros H. destruct answer; cbn; auto. Qed.

Lemma Forall_forOf {A} (Q : Event -> Prop) (body : nat -> A -> M unit) xs :
  (forall k x, Forall Q (fst (body k x))) ->
  forall k, Forall Q (fst (forOf k xs body)).
Proof.
  intros Hb. induction xs as [|x r IH]; intros k; cbn [forOf].
  - constructor.
  - apply Forall_bind; auto.
Qed.

Lemma Forall_each (Q : Event -> Prop) body els :
  (forall i el, Forall Q (fst (body i el))) ->
  forall i, Forall Q (fst (each i els body)).
Proof.
  intros Hb. induction els as [|el r IH]; intros i; cbn [each].
  - constructor.
  - apply Forall_bind; [apply Hb|]. intros link.
    apply Forall_bind; [apply IH|]. intros links. constructor.
Qed.

Lemma filter_none {A} (f : A -> bool) {l : list A} :
  Forall (fun x => f x = false) l -> filter f l = [].
Proof.
  induction 1 as [|x r Hx _ IH]; cbn; [reflexivity|]. now rewrite Hx.
Qed.


(* ================================================================== *)
(** ** File names *)
(* ================================================================== *)

Lemma inClass_underscore : inClass underscore = false.
Proof. reflexivity. Qed.

Lemma sanitize_length x : length (sanitize x) = length x.
Proof. apply length_map. Qed.

Lemma sanitize_char_fixed c :
  (if inClass (if inClass c then c else underscore)
   then (if inClass c then c else underscore) else underscore)
  = (if inClass c then c else underscore).
Proof.
  destruct (inClass c) eqn:E.
  - now rewrite E.
  - now rewrite inClass_underscore.
Qed.

(** C3, as the specification states it, fails: the replacement character
    [_] is itself outside of [A-Za-z0-9.-]. *)
Lemma sanitize_output_leaves_class :
  sanitize (js "Cjenik 1.csv") = js "Cjenik_1.csv"
  /\ ~ Forall (fun c => inClass c = true) (sanitize (js "Cjenik 1.csv")).
Proof.
  split; [reflexivity|].
  intros H. rewrite Forall_forall in H.
  specialize (H underscore). cbn in H.
  assert (F : inClass underscore = true) by (apply H; tauto).
  discriminate F.
Qed.

(** C3 (amended): for every string [x], [sanitize (sanitize x) = sanitize x],
    and every character of [sanitize x] lies in [A-Za-z0-9.-] or is the
    underscore that replaces the others. *)
Theorem sanitize_idempotent_charset (x : jsstring) :
  sanitize (sanitize x) = sanitize x
  /\ Forall (fun c => inClass c = true \/ c = underscore) (sanitize x).
Proof.
  split.
  - unfold sanitize. rewrite map_map. apply map_ext. intros c.
    apply sanitize_char_fixed.
  - unfold sanitize. rewrite Forall_map, Forall_forall. intros c _.
    destruct (inClass c) eqn:E; auto.
Qed.

(* ================================================================== *)
(** ** Run metadata *)
(* ================================================================== *)

(** C6: for every download result, the recorded metadata has
    [totalFiles = successfulDownloads + failedDownloads], and its list of
    failed file names has [failedDownloads] entries, one per failed link;
    this is the object that [saveMetadata] writes and returns. *)
Theorem saveMetadata_counts (lib : Lib) (w : World) (r : Results) :
  let m := metadataOf lib w r in
  totalFiles m = successfulDownloads m + failedDownloads m
  /\ length (failedFiles m) = failedDownloads m
  /\ failedDownloads m = length (failed r)
  /\ failedFiles m = map f_filename (failed r)
  /\ In (EWriteMetadata
           (path_join lib (CONFIG_downloadDir lib w) (js "_metadata.json")) m)
        (fst (saveMetadata lib w r))
  /\ (forall m', snd (saveMetadata lib w r) = Ok m' -> m' = m).
Proof.
  cbn. repeat split.
  - apply length_map.
  - unfold saveMetadata, call. destruct (write_metadata w); cbn; auto.
  - unfold saveMetadata, call. destruct (write_metadata w); cbn;
      intros m' H; now inversion H.
Qed.

(* ================================================================== *)
(** ** Link extraction *)
(* ================================================================== *)

Lemma primaryLink_silent i el : fst (primaryLink i el) = [].
Proof.
  unfold primaryLink, absoluteUrlOf.
  destruct (orElse (download el) (trim (text el))), (href el);
    reflexivity.
Qed.

Lemma fallbackLink_silent i el : fst (fallbackLink i el) = [].
Proof.
  unfold fallbackLink, absoluteUrlOf. destruct (href el); reflexivity.
Qed.

(** The primary method follows the priority order on every element that has
    an [href]. *)
Lemma primaryLink_priority i el u :
  href el = Some u ->
  snd (primaryLink i el)
  = Ok {| url := if startsWithSlash u then resolveAgainstBase u else u;
          filename := filenameByPriority i el u |}.
Proof.
  intros Hu. unfold primaryLink, filenameByPriority, absoluteUrlOf.
  rewrite Hu.
  destruct (download el) as [[|c r]|], (trim (text el)) as [|c' r'];
    cbn; try reflexivity;
    destruct (lastSegment u); reflexivity.
Qed.

(** So does the version of the script that runs in a browser. *)
Lemma browserLink_priority resolved dateNow el :
  filename (browserLink resolved dateNow el)
  = firstNonEmpty [orElse (download el) []; trim (text el);
                   lastSegment resolved]
                  (js "file-" ++ showNat dateNow ++ js ".csv").
Proof.
  unfold browserLink. cbn [filename].
  destruct (download el) as [[|c r]|], (trim (text el)) as [|c' r'];
    cbn; try reflexivity; destruct (lastSegment resolved); reflexivity.
Qed.

(** An element without [href] makes either method throw a [TypeError]. *)
Lemma link_without_href i el :
  href el = None ->
  (exists e, snd (primaryLink i el) = Throw e)
  /\ snd (fallbackLink i el) = Throw (typeError (js "startsWith")).
Proof.
  intros Hu. unfold primaryLink, fallbackLink, absoluteUrlOf. rewrite Hu.
  split; [|reflexivity].
  destruct (orElse (download el) (trim (text el))); cbn; eauto.
Qed.

(** A root-relative [href] is resolved against the origin of the page. *)
Lemma root_relative_resolved r :
  absoluteUrlOf (Some (47%N :: r))
  = ret (js "https://www.konzum.hr" ++ 47%N :: r)
  /\ isAbsoluteUrl (js "https://www.konzum.hr" ++ 47%N :: r) = true.
Proof. split; reflexivity. Qed.

(** C7 (the code departs from the claim): on an element with a [download]
    attribute the primary method names the file after the attribute and the
    backup method after the link text; on an element with neither attribute
    nor text the primary method takes the last segment of the URL and the
    backup method the generated name. *)
Theorem fallbackLink_skips_attribute_and_url :
  let named := {| href := Some (js "/cjenici/download?id=1");
                  text := js " Preuzmi ";
                  download := Some (js "cjenik-zagreb.csv") |} in
  let bare := {| href := Some (js "/files/cjenik-split.csv");
                 text := js "  ";
                 download := None |} in
  option_map filename
    (match snd (primaryLink 0 named) with Ok l => Some l | _ => None end)
  = Some (js "cjenik-zagreb.csv")
  /\ option_map filename
       (match snd (fallbackLink 0 named) with Ok l => Some l | _ => None end)
     = Some (js "Preuzmi")
  /\ option_map filename
       (match snd (primaryLink 1 bare) with Ok l => Some l | _ => None end)
     = Some (js "cjenik-split.csv")
  /\ option_map filename
       (match snd (fallbackLink 1 bare) with Ok l => Some l | _ => None end)
     = Some (js "file-1.csv").
Proof. repeat split; reflexivity. Qed.

(** C8 (the code departs from the claim): an [href] that is relative to the
    page and does not start with a slash is kept as it is by both methods,
    so the link's URL is not absolute. *)
Theorem relative_href_kept_relative :
  let el := {| href := Some (js "files/cjenik.csv");
               text := js "Cjenik";
               download := None |} in
  let link := {| url := js "files/cjenik.csv"; filename := js "Cjenik" |} in
  snd (extractDownloadLinks (libWith [el]) calmWorld) = Ok [link]
  /\ snd (fetchLinksWithCurl (libWith [el]) calmWorld) = Ok [link]
  /\ isAbsoluteUrl (url link) = false.
Proof. repeat split; reflexivity. Qed.

(* ================================================================== *)
(** ** Which events each part of the run can emit *)
(* ================================================================== *)

Lemma filter_bind {A B} f (m : M A) (k : A -> M B) :
  filter f (fst (bind m k))
  = filter f (fst m)
    ++ match snd m with Ok a => filter f (fst (k a)) | _ => [] end.
Proof.
  unfold bind. destruct (snd m); cbn; [apply filter_app | |];
    now rewrite app_nil_r.
Qed.

Lemma filter_try_catch {A} f (m : M A) h :
  filter f (fst (try_catch m h))
  = filter f (fst m)
    ++ match snd m with Throw e => filter f (fst (h e)) | _ => [] end.
Proof.
  unfold try_catch. destruct (snd m); cbn; [| apply filter_app |];
    now rewrite app_nil_r.
Qed.

(** Splits a goal [Forall Q (fst code)] along the structure of [code]. *)
Ltac quiet :=
  repeat first
    [ rewrite primaryLink_silent
    | rewrite fallbackLink_silent
    | apply Forall_bind
    | apply Forall_try_catch
    | apply Forall_call
    | apply Forall_fetched
    | apply Forall_forOf
    | apply Forall_each
    | apply Forall_nil
    | apply Forall_cons
    | reflexivity
    | progress intros
    | progress cbn [fst log emit ret throw diverge]
    | match goal with
      | |- Forall _ (fst (if ?b then _ else _)) => destruct b
      | |- Forall _ (fst (match ?x with _ => _ end)) => destruct x
      | |- Forall _ (fst (let '(_, _) := ?p in _)) => destruct p
      end ].

Section Quiet.

Variable lib : Lib.
Variable w : World.

Lemma setupDirectories_no_curl :
  Forall notCurl (fst (setupDirectories lib w)).
Proof. unfold setupDirectories. quiet. Qed.

Lemma setupDirectories_no_request :
  Forall notRequest (fst (setupDirectories lib w)).
Proof. unfold setupDirectories. quiet. Qed.

Lemma extractDownloadLinks_no_curl :
  Forall notCurl (fst (extractDownloadLinks lib w)).
Proof. unfold extractDownloadLinks. quiet. Qed.

Lemma extractDownloadLinks_no_request :
  Forall notRequest (fst (extractDownloadLinks lib w)).
Proof. unfold extractDownloadLinks. quiet. Qed.

Lemma fetchLinksWithCurl_no_request :
  Forall notRequest (fst (fetchLinksWithCurl lib w)).
Proof. unfold fetchLinksWithCurl. quiet. Qed.

(** The backup method runs [curl] exactly once, whatever comes of it. *)
Lemma fetchLinksWithCurl_one_curl :
  filter isCurl (fst (fetchLinksWithCurl lib w)) = [EExecCurl curlCommand].
Proof.
  unfold fetchLinksWithCurl.
  rewrite filter_bind. cbn [log emit fst snd filter isCurl app].
  rewrite filter_bind. cbn [log emit fst snd filter isCurl app].
  rewrite filter_none; [reflexivity|]. quiet.
Qed.

Lemma settleAll_Forall (Q : Event -> Prop) :
  (forall results entry, Forall Q (fst (respond lib w results entry))) ->
  (forall results entry, Forall Q (fst (finish lib w results entry))) ->
  forall n waiting writing stuck choices results,
    Forall Q (fst (settleAll lib w n waiting writing stuck choices results)).
Proof.
  intros Hr Hf. induction n as [|n IH]; intros waiting writing stuck choices
    results; cbn [settleAll]; destruct (waiting ++ writing) as [|first rest];
    try (destruct stuck; quiet; fail).
  destruct (_ <? length waiting).
  - apply Forall_bind; [apply Hr|]. intros [results'|]; [apply IH|].
    destruct (neverCloses _ _); apply IH.
  - apply Forall_bind; [apply Hf | intros; apply IH].
Qed.

Lemma respond_no_curl results entry :
  Forall notCurl (fst (respond lib w results entry)).
Proof. unfold respond, downloadFile_response, onRejected. quiet. Qed.

Lemma finish_no_curl results entry :
  Forall notCurl (fst (finish lib w results entry)).
Proof.
  unfold finish, downloadFile_writer, onFulfilled, onRejected. quiet.
Qed.

Lemma respond_no_request results entry :
  Forall notRequest (fst (respond lib w results entry)).
Proof. unfold respond, downloadFile_response, onRejected. quiet. Qed.

Lemma finish_no_request results entry :
  Forall notRequest (fst (finish lib w results entry)).
Proof.
  unfold finish, downloadFile_writer, onFulfilled, onRejected. quiet.
Qed.

Lemma settleAll_no_curl n waiting writing stuck choices results :
  Forall notCurl
    (fst (settleAll lib w n waiting writing stuck choices results)).
Proof.
  apply settleAll_Forall; [apply respond_no_curl | apply finish_no_curl].
Qed.

Lemma settleAll_no_request n waiting writing stuck choices results :
  Forall notRequest
    (fst (settleAll lib w n waiting writing stuck choices results)).
Proof.
  apply settleAll_Forall;
    [apply respond_no_request | apply finish_no_request].
Qed.

(** A property of the events of a download, of the batch lines and of the
    summary holds of all events of [downloadAllFiles]. *)
Section DownloadEvents.

Variable Q : Event -> Prop.
Hypothesis Q_batch : forall k n, Q (ELog LInfo (MProcessingBatch k n)).
Hypothesis Q_summary : forall a b, Q (ELog LInfo (MDownloadSummary a b)).
Hypothesis Q_request :
  forall link index, Forall Q (fst (downloadFile_request lib w link index)).
Hypothesis Q_respond :
  forall results entry, Forall Q (fst (respond lib w results entry)).
Hypothesis Q_finish :
  forall results entry, Forall Q (fst (finish lib w results entry)).

Lemma batchLoop_Forall size fuel : forall i links results,
  Forall Q (fst (batchLoop lib w size fuel i links results)).
Proof.
  induction fuel as [|fuel IH]; intros i links results; cbn [batchLoop];
    destruct (i <? length links); try (quiet; fail).
  apply Forall_bind; [quiet; apply Q_batch|]. intros _.
  apply Forall_bind; [apply Forall_forOf; intros; apply Q_request|].
  intros _.
  apply Forall_bind; [now apply settleAll_Forall | intros; apply IH].
Qed.

Lemma downloadAllFiles_Forall links :
  Forall Q (fst (downloadAllFiles lib w links)).
Proof.
  unfold downloadAllFiles. apply Forall_bind; [apply batchLoop_Forall|].
  intros r. quiet. apply Q_summary.
Qed.

End DownloadEvents.

Lemma downloadAllFiles_no_curl links :
  Forall notCurl (fst (downloadAllFiles lib w links)).
Proof.
  apply downloadAllFiles_Forall; try reflexivity;
    [unfold downloadFile_request; quiet
    | apply respond_no_curl | apply finish_no_curl].
Qed.




Lemma processDownloadedFiles_no_curl r :
  Forall notCurl (fst (processDownloadedFiles lib w r)).
Proof. unfold processDownloadedFiles, processFile, processFile_try. quiet. Qed.

Lemma saveMetadata_no_curl r :
  Forall notCurl (fst (saveMetadata lib w r)).
Proof. unfold saveMetadata. quiet. Qed.

Lemma runDownloads_no_curl links :
  Forall notCurl (fst (runDownloads lib w links)).
Proof.
  unfold runDownloads.
  apply Forall_bind; [apply downloadAllFiles_no_curl|]. intros r.
  apply Forall_bind; [apply processDownloadedFiles_no_curl|]. intros _.
  apply Forall_bind; [apply saveMetadata_no_curl|]. quiet.
Qed.

End Quiet.

(* ================================================================== *)
(** ** The primary method and its backup *)
(* ================================================================== *)

Section Fallback.

Variable lib : Lib.
Variable w : World.

Lemma getLinks_primary_ok links :
  snd (extractDownloadLinks lib w) = Ok links ->
  getLinks lib w = extractDownloadLinks lib w.
Proof. intros H. unfold getLinks. now rewrite (try_catch_ok _ H). Qed.

Lemma getLinks_primary_throw e :
  snd (extractDownloadLinks lib w) = Throw e ->
  getLinks lib w
  = (fst (extractDownloadLinks lib w)
     ++ ELog LWarn (MPrimaryFailed (message e)) :: ELog LInfo MTryingBackup
        :: fst (fetchLinksWithCurl lib w),
     snd (fetchLinksWithCurl lib w)).
Proof.
  intros H. unfold getLinks. rewrite (try_catch_throw _ H). reflexivity.
Qed.

Lemma extractDownloadLinks_throw_logged e :
  snd (extractDownloadLinks lib w) = Throw e ->
  exists before,
    fst (extractDownloadLinks lib w)
    = before ++ [ELog LError (MErrorExtractingLinks (message e))].
Proof.
  unfold extractDownloadLinks. unfold log at 1. unfold emit at 1.
  rewrite bind_pair. cbn [fst snd].
  match goal with |- snd (try_catch ?m _) = _ -> _ => set (body := m) end.
  unfold try_catch. destruct (snd body) as [links|e'|] eqn:E.
  - rewrite E. discriminate.
  - cbn [fst snd log emit throw bind app]. intros H. injection H as ->.
    exists (ELog LInfo (MFetchingHtml CONFIG_url) :: fst body).
    reflexivity.
  - rewrite E. discriminate.
Qed.

Lemma curl_runs_of_getLinks :
  filter isCurl (fst (getLinks lib w))
  = match snd (extractDownloadLinks lib w) with
    | Throw _ => [EExecCurl curlCommand]
    | _ => []
    end.
Proof.
  unfold getLinks. rewrite filter_try_catch.
  rewrite (filter_none isCurl (extractDownloadLinks_no_curl lib w)).
  destruct (snd (extractDownloadLinks lib w)); try reflexivity.
  cbn [app]. rewrite filter_bind. cbn [log emit fst snd filter isCurl app].
  rewrite filter_bind. cbn [log emit fst snd filter isCurl app].
  apply fetchLinksWithCurl_one_curl.
Qed.

Lemma curl_runs_of_main :
  filter isCurl (fst (main lib w))
  = match snd (setupDirectories lib w) with
    | Ok _ => filter isCurl (fst (getLinks lib w))
    | _ => []
    end.
Proof.
  unfold main. rewrite filter_bind. cbn [log emit fst snd filter isCurl app].
  rewrite filter_try_catch.
  replace (match snd (mainTry lib w) with
           | Throw e =>
               filter isCurl
                 (fst (log LError (MJobFailed (message e))))
           | _ => []
           end) with (@nil Event) by (destruct (snd (mainTry lib w)); reflexivity).
  rewrite app_nil_r. unfold mainTry. rewrite filter_bind.
  rewrite (filter_none isCurl (setupDirectories_no_curl lib w)). cbn [app].
  destruct (snd (setupDirectories lib w)); try reflexivity.
  rewrite filter_bind.
  destruct (snd (getLinks lib w)) as [links| |]; try apply app_nil_r.
  match goal with
  | |- _ ++ filter isCurl ?t = _ =>
      assert (E : filter isCurl t = []); [|rewrite E; apply app_nil_r]
  end.
  apply filter_none.
  destruct (length links =? 0); [quiet | apply runDownloads_no_curl].
Qed.

(** When link extraction throws, the run ends in the outer [catch] with
    that error, straight after the events of the extraction. *)
Lemma main_aborts_on_getLinks_throw e :
  snd (setupDirectories lib w) = Ok tt ->
  snd (getLinks lib w) = Throw e ->
  mainTry lib w
  = (fst (setupDirectories lib w) ++ fst (getLinks lib w), Throw e)
  /\ main lib w
     = (ELog LInfo MStarting
        :: (fst (setupDirectories lib w) ++ fst (getLinks lib w))
        ++ [ELog LError (MJobFailed (message e))], Ok tt).
Proof.
  intros Hs Hg.
  assert (Ht : mainTry lib w
               = (fst (setupDirectories lib w) ++ fst (getLinks lib w),
                  Throw e)).
  { unfold mainTry. rewrite (bind_ok _ Hs), (bind_throw _ Hg). reflexivity. }
  split; [exact Ht|].
  unfold main. cbn [log emit bind fst snd app].
  rewrite Ht. reflexivity.
Qed.

End Fallback.

(** C2, as the specification states it, fails: with both page fetches
    failing, the error that leaves the link-extraction phase is the one of
    [curl], not the one of the primary method. *)
Lemma getLinks_propagates_curl_error :
  snd (extractDownloadLinks (libWith []) offlineWorld) = Throw ENOTFOUND
  /\ snd (fetchLinksWithCurl (libWith []) offlineWorld) = Throw CURLFAIL
  /\ snd (getLinks (libWith []) offlineWorld) = Throw CURLFAIL
  /\ snd (getLinks (libWith []) offlineWorld) <> Throw ENOTFOUND.
Proof. repeat split; try reflexivity. discriminate. Qed.

(** C2 (amended): when the primary method fails with [e1] and the backup
    method fails with [e2], the error that propagates out of the
    link-extraction phase is [e2], the error of the backup method; [e1] is
    logged and does not propagate.  In detail: the primary method ends by
    logging [e1] as an error; the phase then logs [e1] as a warning,
    announces the backup method and runs it; and the run, when its
    directories are set up, ends by reporting [e2] as the reason of its
    failure. *)
Theorem getLinks_both_fail (lib : Lib) (w : World) (e1 e2 : JsError) :
  snd (extractDownloadLinks lib w) = Throw e1 ->
  snd (fetchLinksWithCurl lib w) = Throw e2 ->
  snd (getLinks lib w) = Throw e2
  /\ (exists before,
        fst (extractDownloadLinks lib w)
        = before ++ [ELog LError (MErrorExtractingLinks (message e1))])
  /\ fst (getLinks lib w)
     = fst (extractDownloadLinks lib w)
       ++ [ELog LWarn (MPrimaryFailed (message e1)); ELog LInfo MTryingBackup]
       ++ fst (fetchLinksWithCurl lib w)
  /\ (snd (setupDirectories lib w) = Ok tt ->
      exists before,
        main lib w
        = (before ++ [ELog LError (MJobFailed (message e2))], Ok tt)).
Proof.
  intros H1 H2. rewrite (getLinks_primary_throw lib w _ H1). cbn [fst snd].
  split; [exact H2|].
  split; [exact (extractDownloadLinks_throw_logged lib w _ H1)|].
  split; [reflexivity|].
  intros Hs.
  assert (Hg : snd (getLinks lib w) = Throw e2)
    by (rewrite (getLinks_primary_throw lib w _ H1); exact H2).
  destruct (main_aborts_on_getLinks_throw lib w _ Hs Hg) as [_ Hm].
  rewrite Hm. rewrite (getLinks_primary_throw lib w _ H1). cbn [fst].
  eexists (_ :: _). reflexivity.
Qed.

Lemma getLinks_both_fail_witness :
  snd (getLinks (libWith []) offlineWorld) = Throw CURLFAIL
  /\ (exists before,
        fst (extractDownloadLinks (libWith []) offlineWorld)
        = before ++ [ELog LError (MErrorExtractingLinks (message ENOTFOUND))])
  /\ fst (getLinks (libWith []) offlineWorld)
     = fst (extractDownloadLinks (libWith []) offlineWorld)
       ++ [ELog LWarn (MPrimaryFailed (message ENOTFOUND));
           ELog LInfo MTryingBackup]
       ++ fst (fetchLinksWithCurl (libWith []) offlineWorld)
  /\ (snd (setupDirectories (libWith []) offlineWorld) = Ok tt ->
      exists before,
        main (libWith []) offlineWorld
        = (before ++ [ELog LError (MJobFailed (message CURLFAIL))], Ok tt)).
Proof.
  apply (getLinks_both_fail (libWith []) offlineWorld ENOTFOUND CURLFAIL);
    reflexivity.
Defined.

(** C5: in every run, if the primary method fails, the backup method is
    invoked exactly once; if the backup method fails as well, the run aborts
    before any download request is issued; if the primary method succeeds,
    the backup method is never invoked. *)
Theorem main_fallback_policy (lib : Lib) (w : World) :
  (forall e,
      snd (setupDirectories lib w) = Ok tt ->
      snd (extractDownloadLinks lib w) = Throw e ->
      fallbackInvocations (fst (main lib w)) = 1)
  /\ (forall e e',
      snd (setupDirectories lib w) = Ok tt ->
      snd (extractDownloadLinks lib w) = Throw e ->
      snd (fetchLinksWithCurl lib w) = Throw e' ->
      snd (mainTry lib w) = Throw e'
      /\ downloadsStarted (fst (main lib w)) = 0)
  /\ (forall links,
      snd (extractDownloadLinks lib w) = Ok links ->
      fallbackInvocations (fst (main lib w)) = 0).
Proof.
  unfold fallbackInvocations, downloadsStarted. split; [|split].
  - intros e Hs H1.
    rewrite curl_runs_of_main, Hs, curl_runs_of_getLinks, H1. reflexivity.
  - intros e e' Hs H1 H2.
    assert (Hg : snd (getLinks lib w) = Throw e')
      by (rewrite (getLinks_primary_throw lib w _ H1); assumption).
    destruct (main_aborts_on_getLinks_throw lib w _ Hs Hg) as [Ht Hm].
    split; [now rewrite Ht|].
    rewrite Hm. cbn [fst filter isRequest].
    rewrite !filter_app.
    rewrite (filter_none isRequest (setupDirectories_no_request lib w)).
    rewrite (getLinks_primary_throw lib w _ H1). cbn [fst].
    rewrite filter_app.
    rewrite (filter_none isRequest (extractDownloadLinks_no_request lib w)).
    cbn [filter isRequest app].
    rewrite (filter_none isRequest (fetchLinksWithCurl_no_request lib w)).
    reflexivity.
  - intros links H1.
    rewrite curl_runs_of_main, curl_runs_of_getLinks, H1.
    destruct (snd (setupDirectories lib w)); reflexivity.
Qed.

Lemma main_fallback_policy_witness :
  fallbackInvocations
    (fst (main (libWith [])
               (withPage (inl ENOTFOUND) (inr (js "<html>")) calmWorld))) = 1
  /\ (snd (mainTry (libWith []) offlineWorld) = Throw CURLFAIL
      /\ downloadsStarted (fst (main (libWith []) offlineWorld)) = 0)
  /\ fallbackInvocations (fst (main (libWith []) calmWorld)) = 0.
Proof.
  split; [|split].
  - apply (proj1 (main_fallback_policy (libWith [])
             (withPage (inl ENOTFOUND) (inr (js "<html>")) calmWorld))
             ENOTFOUND); reflexivity.
  - apply (proj1 (proj2 (main_fallback_policy (libWith []) offlineWorld))
             ENOTFOUND CURLFAIL); reflexivity.
  - apply (proj2 (proj2 (main_fallback_policy (libWith []) calmWorld)) []);
      reflexivity.
Defined.

(* ================================================================== *)
(** ** Downloads in batches *)
(* ================================================================== *)

Lemma number_app i a b :
  number i (a ++ b) = number i a ++ number (i + length a) b.
Proof.
  revert i. induction a as [|x a IH]; intros i; cbn.
  - now rewrite Nat.add_0_r.
  - rewrite IH. now rewrite Nat.add_succ_comm.
Qed.

Lemma combine_seq_number l i : combine (seq (i + 1) (length l)) l = number i l.
Proof.
  rewrite Nat.add_1_r. revert i.
  induction l as [|x l IH]; intros i; cbn; [reflexivity|]. now rewrite IH.
Qed.

Lemma number_length l : forall i, length (number i l) = length l.
Proof. induction l as [|y l IH]; intros i; cbn; [|rewrite IH]; reflexivity. Qed.

Lemma number_bounds l : forall i j x,
  In (j, x) (number i l) -> i < j <= i + length l.
Proof.
  induction l as [|y l IH]; intros i j x; cbn; [tauto|].
  intros [E|H]; [inversion E; lia | apply IH in H; lia].
Qed.

Lemma number_covers l : forall i j,
  i < j <= i + length l -> exists x, In (j, x) (number i l).
Proof.
  induction l as [|y l IH]; intros i j; cbn; [lia|]. intros H.
  destruct (Nat.eq_dec j (S i)) as [->|Hne]; [eauto|].
  destruct (IH (S i) j) as [x Hx]; [lia | eauto].
Qed.

Lemma map_snd_number l : forall i, map snd (number i l) = l.
Proof. induction l as [|y l IH]; intros i; cbn; [|rewrite IH]; reflexivity. Qed.

Lemma map_fst_number l : forall i, map fst (number i l) = seq (S i) (length l).
Proof. induction l as [|y l IH]; intros i; cbn; [|rewrite IH]; reflexivity. Qed.

Lemma number_nth links : forall i j l,
  In (j, l) (number i links) <->
  exists k, j = S (i + k) /\ nth_error links k = Some l.
Proof.
  induction links as [|x links IH]; intros i j l; cbn [number In].
  - split; [tauto|]. intros ([|k] & _ & H); discriminate H.
  - rewrite IH. split.
    + intros [E|(k & -> & Hk)].
      * inversion E; subst. exists 0. split; [lia | reflexivity].
      * exists (S k). split; [lia | exact Hk].
    + intros ([|k] & -> & Hk).
      * left. inversion Hk. f_equal. lia.
      * right. exists k. split; [lia | exact Hk].
Qed.

Lemma removeAt_perm {A} (d : A) k : forall l,
  k < length l -> Permutation l (nth k l d :: removeAt k l).
Proof.
  unfold removeAt. induction k as [|k IH]; intros [|x l]; cbn; try lia.
  - reflexivity.
  - intros H. etransitivity; [|apply perm_swap].
    constructor. apply IH. lia.
Qed.

Lemma removeAt_length {A} k (l : list A) :
  k < length l -> length (removeAt k l) = length l - 1.
Proof.
  intros H. unfold removeAt.
  rewrite length_app, length_firstn, length_skipn. lia.
Qed.

Lemma filter_perm {A} (f : A -> bool) l l' :
  Permutation l l' -> Permutation (filter f l) (filter f l').
Proof.
  induction 1 as [|x l l' _ IH|x y l|l l' l'' _ IH1 _ IH2]; cbn.
  - apply perm_nil.
  - destruct (f x); [apply perm_skip|]; exact IH.
  - destruct (f x), (f y); try reflexivity. apply perm_swap.
  - etransitivity; eassumption.
Qed.

Lemma forallb_perm {A} (f : A -> bool) l l' :
  Permutation l l' -> forallb f l = forallb f l'.
Proof.
  induction 1 as [|x l l' _ IH|x y l|l l' l'' _ IH1 _ IH2]; cbn.
  - reflexivity.
  - now rewrite IH.
  - destruct (f x), (f y); reflexivity.
  - congruence.
Qed.

Lemma settledIndices_app a b :
  settledIndices (a ++ b) = settledIndices a ++ settledIndices b.
Proof. apply flat_map_app. Qed.

Lemma requestedIndices_app a b :
  requestedIndices (a ++ b) = requestedIndices a ++ requestedIndices b.
Proof. apply flat_map_app. Qed.

Lemma requestedIndices_none t :
  Forall notRequest t -> requestedIndices t = [].
Proof.
  induction 1 as [|e t He _ IH]; [reflexivity|].
  unfold requestedIndices in *. cbn [flat_map]. rewrite IH.
  destruct e; try reflexivity. discriminate He.
Qed.

Section Batches.

Variable lib : Lib.
Variable w : World.

(** *** One download *)

(** A download never settles exactly when its request is answered and its
    write stream never ends. *)
Lemma stalled_eq p :
  stalled lib w p = negb (requestFails w p) && neverCloses w p.
Proof.
  unfold stalled, requestFails, neverCloses, downloadFile_settle,
    downloadFile_response, downloadFile_writer.
  destruct (axios_stream w (fst p) (snd p)); [reflexivity|].
  destruct (write_stream w (fst p) (snd p)); reflexivity.
Qed.

Lemma settles_eq p :
  settles lib w p = requestFails w p || negb (neverCloses w p).
Proof.
  unfold settles. rewrite stalled_eq.
  destruct (requestFails w p), (neverCloses w p); reflexivity.
Qed.

Lemma streams_settles p : streams w p = true -> settles lib w p = true.
Proof.
  rewrite settles_eq. unfold streams.
  destruct (requestFails w p), (neverCloses w p); auto.
Qed.

Lemma respond_eq results p :
  respond lib w results p
  = match axios_stream w (fst p) (snd p) with
    | Some e =>
        ([ELog LError (MErrorDownloading (fst p) (url (snd p)) (message e));
          ESettled (fst p) false],
         Ok (Some (pushFailed results (snd p) e)))
    | None =>
        ([ECreateWriteStream (fst p)
            (path_join lib (CONFIG_downloadDir lib w)
                       (sanitize (filename (snd p))))],
         Ok None)
    end.
Proof.
  unfold respond, downloadFile_response, onRejected.
  destruct (axios_stream w (fst p) (snd p)); reflexivity.
Qed.

Lemma finish_eq results p :
  finish lib w results p
  = match write_stream w (fst p) (snd p) with
    | WClose =>
        ([ELog LInfo (MDownloaded (fst p) (sanitize (filename (snd p))));
          ESettled (fst p) true],
         Ok (pushSuccess results (snd p)
               (path_join lib (CONFIG_downloadDir lib w)
                          (sanitize (filename (snd p))))))
    | WError e =>
        ([ESettled (fst p) false], Ok (pushFailed results (snd p) e))
    | WNever => ([], Diverge)
    end.
Proof.
  unfold finish, downloadFile_writer, onFulfilled, onRejected.
  destruct (write_stream w (fst p) (snd p)); reflexivity.
Qed.

(** The outcome of one download, by the answers of the world. *)
Lemma downloadFile_settle_eq link index :
  snd (downloadFile_settle lib w link index)
  = match axios_stream w index link with
    | Some e => Throw e
    | None =>
        match write_stream w index link with
        | WClose => Ok (path_join lib (CONFIG_downloadDir lib w)
                                  (sanitize (filename link)))
        | WError e => Throw e
        | WNever => Diverge
        end
    end.
Proof.
  unfold downloadFile_settle, downloadFile_response, downloadFile_writer.
  destruct (axios_stream w index link); [reflexivity|].
  destruct (write_stream w index link); reflexivity.
Qed.

(** *** The results as the downloads settle *)

Lemma settled_nil results : settled lib w results [] = results.
Proof.
  destruct results. unfold settled. cbn. now rewrite !app_nil_r.
Qed.

Lemma settled_app results a b :
  settled lib w results (a ++ b)
  = settled lib w (settled lib w results a) b.
Proof.
  unfold settled, resolvedEntries, rejectedEntries. cbn [success failed].
  now rewrite !flat_map_app, !app_assoc.
Qed.

Lemma settled_cons results p l :
  settled lib w results (p :: l)
  = settled lib w (settled lib w results [p]) l.
Proof. exact (settled_app results [p] l). Qed.

Lemma settled_rejected results p e :
  snd (downloadFile_settle lib w (snd p) (fst p)) = Throw e ->
  settled lib w results [p] = pushFailed results (snd p) e.
Proof.
  intros H. unfold settled, resolvedEntries, rejectedEntries, pushFailed.
  cbn [flat_map]. rewrite H. cbn [app]. now rewrite !app_nil_r.
Qed.

Lemma settled_resolved results p path :
  snd (downloadFile_settle lib w (snd p) (fst p)) = Ok path ->
  settled lib w results [p] = pushSuccess results (snd p) path.
Proof.
  intros H. unfold settled, resolvedEntries, rejectedEntries, pushSuccess.
  cbn [flat_map]. rewrite H. cbn [app]. now rewrite !app_nil_r.
Qed.

(** *** A batch *)

(** What [await Promise.all] gives: when no download of the batch is stuck
    or will be, the results with the entries of the downloads in the order
    they settle; otherwise nothing, for ever.  The trace shows the downloads
    settling in that order. *)
Lemma settleAll_exact n : forall waiting writing stuck choices results,
  2 * length waiting + length writing <= n ->
  Forall (fun p => streams w p = true) writing ->
  snd (settleAll lib w n waiting writing stuck choices results)
  = (if (length stuck =? 0) && forallb (settles lib w) waiting
     then Ok (settled lib w results
                (settleOrder w n waiting writing choices))
     else Diverge)
  /\ settledIndices
       (fst (settleAll lib w n waiting writing stuck choices results))
     = map fst (settleOrder w n waiting writing choices).
Proof.
  assert (Hend : forall n stuck choices results,
    snd (settleAll lib w n [] [] stuck choices results)
    = (if (length stuck =? 0) && forallb (settles lib w) []
       then Ok (settled lib w results (settleOrder w n [] [] choices))
       else Diverge)
    /\ settledIndices (fst (settleAll lib w n [] [] stuck choices results))
       = map fst (settleOrder w n [] [] choices)).
  { intros m stuck choices results.
    destruct m, stuck; cbn; rewrite ?settled_nil; split; reflexivity. }
  induction n as [|n IH]; intros waiting writing stuck choices results Hn Hw.
  { destruct waiting; [|cbn in Hn; lia]. destruct writing; [|cbn in Hn; lia].
    apply Hend. }
  destruct (waiting ++ writing) as [|first rest] eqn:Hww.
  { apply app_eq_nil in Hww. destruct Hww as [-> ->]. apply Hend. }
  cbn [settleAll settleOrder]. rewrite Hww.
  set (k := hd 0 choices mod length (first :: rest)).
  assert (Hk : k < length waiting + length writing).
  { rewrite <- length_app, Hww. apply Nat.mod_upper_bound. discriminate. }
  destruct (k <? length waiting) eqn:Hlt.
  - apply Nat.ltb_lt in Hlt.
    set (entry := nth k waiting first).
    pose proof (removeAt_perm first k waiting Hlt) as Hperm.
    fold entry in Hperm.
    pose proof (removeAt_length k waiting Hlt) as Hlen.
    rewrite (forallb_perm (settles lib w) _ _ Hperm). cbn [forallb].
    rewrite respond_eq, (settles_eq entry). unfold requestFails.
    destruct (axios_stream w (fst entry) (snd entry)) as [e|] eqn:Hax.
    + rewrite bind_pair. cbn [fst snd orb andb].
      destruct (IH (removeAt k waiting) writing stuck (tl choices)
                   (pushFailed results (snd entry) e)) as [IH1 IH2];
        [lia | exact Hw |].
      rewrite IH1, settledIndices_app, IH2.
      split; [|reflexivity].
      match goal with
      | |- (if ?b then _ else _) = _ => destruct b; [|reflexivity]
      end.
      rewrite (settled_cons results entry). f_equal. f_equal.
      symmetry. apply settled_rejected.
      now rewrite downloadFile_settle_eq, Hax.
    + rewrite bind_pair. cbn [fst snd orb negb].
      destruct (neverCloses w entry) eqn:Hnc; cbn [negb andb].
      * destruct (IH (removeAt k waiting) writing (stuck ++ [entry])
                     (tl choices) results) as [IH1 IH2];
          [lia | exact Hw |].
        rewrite IH1, settledIndices_app, IH2. rewrite length_app.
        cbn [length]. replace (length stuck + 1 =? 0) with false
          by (symmetry; apply Nat.eqb_neq; lia).
        rewrite Bool.andb_false_r. split; reflexivity.
      * destruct (IH (removeAt k waiting) (writing ++ [entry]) stuck
                     (tl choices) results) as [IH1 IH2].
        { rewrite length_app. cbn [length]. lia. }
        { apply Forall_app. split; [exact Hw|]. constructor; [|constructor].
          unfold streams, requestFails. now rewrite Hax, Hnc. }
        rewrite IH1, settledIndices_app, IH2. split; reflexivity.
  - apply Nat.ltb_ge in Hlt.
    set (j := k - length waiting).
    assert (Hj : j < length writing) by (unfold j; lia).
    set (entry := nth j writing first).
    pose proof (removeAt_perm first j writing Hj) as Hperm.
    fold entry in Hperm.
    pose proof (removeAt_length j writing Hj) as Hlen.
    assert (Hw' : Forall (fun p => streams w p = true)
                         (entry :: removeAt j writing))
      by (rewrite <- Hperm; exact Hw).
    apply Forall_cons_iff in Hw'. destruct Hw' as [He Hw'].
    unfold streams, requestFails, neverCloses in He.
    destruct (IH waiting (removeAt j writing) stuck (tl choices)) with
      (results := settled lib w results [entry]) as [IH1 IH2];
      [lia | exact Hw' |].
    rewrite finish_eq.
    pose proof (downloadFile_settle_eq (snd entry) (fst entry)) as Hout.
    destruct (axios_stream w (fst entry) (snd entry)); [discriminate He|].
    destruct (write_stream w (fst entry) (snd entry)) as [|e|];
      [| |discriminate He].
    + rewrite bind_pair. cbn [fst snd].
      rewrite <- (settled_resolved results entry _ Hout).
      rewrite IH1, settledIndices_app, IH2. split; [|reflexivity].
      match goal with
      | |- (if ?b then _ else _) = _ => destruct b; [|reflexivity]
      end.
      f_equal. symmetry. apply settled_cons.
    + rewrite bind_pair. cbn [fst snd].
      rewrite <- (settled_rejected results entry _ Hout).
      rewrite IH1, settledIndices_app, IH2. split; [|reflexivity].
      match goal with
      | |- (if ?b then _ else _) = _ => destruct b; [|reflexivity]
      end.
      f_equal. symmetry. apply settled_cons.
Qed.

(** The downloads that settle in a batch are those whose write stream ends
    or whose request fails, each once. *)
Lemma settleOrder_perm n : forall waiting writing choices,
  2 * length waiting + length writing <= n ->
  Permutation (settleOrder w n waiting writing choices)
              (filter (settles lib w) waiting ++ writing).
Proof.
  induction n as [|n IH]; intros waiting writing choices Hn.
  { destruct waiting; [|cbn in Hn; lia]. destruct writing; [|cbn in Hn; lia].
    apply perm_nil. }
  destruct (waiting ++ writing) as [|first rest] eqn:Hww.
  { apply app_eq_nil in Hww. destruct Hww as [-> ->]. apply perm_nil. }
  cbn [settleOrder]. rewrite Hww.
  set (k := hd 0 choices mod length (first :: rest)).
  assert (Hk : k < length waiting + length writing).
  { rewrite <- length_app, Hww. apply Nat.mod_upper_bound. discriminate. }
  destruct (k <? length waiting) eqn:Hlt.
  - apply Nat.ltb_lt in Hlt.
    set (entry := nth k waiting first).
    pose proof (removeAt_perm first k waiting Hlt) as Hperm.
    fold entry in Hperm.
    pose proof (removeAt_length k waiting Hlt) as Hlen.
    rewrite (filter_perm (settles lib w) _ _ Hperm). cbn [filter].
    rewrite (settles_eq entry). unfold requestFails.
    destruct (axios_stream w (fst entry) (snd entry)) as [e|] eqn:Hax;
      cbn [orb].
    + cbn [app]. apply perm_skip. apply IH. lia.
    + destruct (neverCloses w entry); cbn [negb].
      * apply IH. lia.
      * etransitivity; [apply IH; rewrite length_app; cbn [length]; lia|].
        rewrite app_assoc. cbn [app].
        etransitivity; [apply Permutation_app_comm|]. reflexivity.
  - apply Nat.ltb_ge in Hlt.
    set (j := k - length waiting).
    assert (Hj : j < length writing) by (unfold j; lia).
    pose proof (removeAt_perm first j writing Hj) as Hperm.
    pose proof (removeAt_length j writing Hj) as Hlen.
    etransitivity; [apply perm_skip, IH; lia|].
    etransitivity; [apply Permutation_middle|].
    apply Permutation_app_head. symmetry. exact Hperm.
Qed.

End Batches.

Section Requests.

Variable lib : Lib.
Variable w : World.

(** The requests of a batch are issued in the order of the batch, each once,
    and nothing settles meanwhile. *)
Lemma requests_spec promises : forall k,
  forOf k promises (fun _ p => downloadFile_request lib w (snd p) (fst p))
  = (requestsOf lib w promises, Ok tt).
Proof.
  induction promises as [|p r IH]; intros k; cbn [forOf].
  - reflexivity.
  - unfold bind. cbn [downloadFile_request log emit bind fst snd].
    rewrite IH. reflexivity.
Qed.

Lemma requestsOf_issue promises j u :
  In (EAxiosStream j u) (requestsOf lib w promises) <->
  exists l, In (j, l) promises /\ u = url l.
Proof.
  unfold requestsOf. rewrite in_flat_map. split.
  - intros ([j' l] & Hin & [H|[H|[]]]); inversion H; subst. eauto.
  - intros (l & Hin & ->). exists (j, l). cbn. auto.
Qed.

Lemma requestsOf_no_settle promises m b :
  ~ In (ESettled m b) (requestsOf lib w promises).
Proof.
  unfold requestsOf. rewrite in_flat_map.
  intros (p & _ & [H|[H|[]]]); discriminate H.
Qed.

Lemma requestsOf_indices ps :
  requestedIndices (requestsOf lib w ps) = map fst ps
  /\ settledIndices (requestsOf lib w ps) = [].
Proof.
  induction ps as [|p ps [IH1 IH2]]; [split; reflexivity|].
  unfold requestedIndices, settledIndices, requestsOf in *.
  cbn [flat_map app map]. now rewrite IH1, IH2.
Qed.

End Requests.

Lemma In_settledIndices m t :
  In m (settledIndices t) <-> exists b, In (ESettled m b) t.
Proof.
  unfold settledIndices. rewrite in_flat_map. split.
  - intros (e & He & Hm). destruct e; try contradiction.
    destruct Hm as [<-|[]]. eauto.
  - intros [b Hb]. exists (ESettled m b). split; [exact Hb | now left].
Qed.

Section BatchLoop.

Variable lib : Lib.
Variable w : World.
Variable links : list Link.
Variable size : nat.
Hypothesis size_pos : 0 < size.

Lemma batchLoop_done fuel i results :
  length links <= i ->
  batchLoop lib w size fuel i links results = ret results.
Proof.
  intros H. apply Nat.ltb_ge in H.
  destruct fuel; cbn [batchLoop]; now rewrite H.
Qed.

Lemma batch_split i :
  i < length links ->
  let batch := firstn size (skipn i links) in
  skipn i links = batch ++ skipn (i + size) links
  /\ number i (skipn i links)
     = number i batch ++ number (i + size) (skipn (i + size) links)
  /\ i + length batch <= length links
  /\ length batch <= size
  /\ (length batch = size \/ i + length batch = length links).
Proof.
  intros Hlt batch.
  assert (Hs : skipn i links = batch ++ skipn (i + size) links).
  { rewrite (Nat.add_comm i size), <- skipn_skipn.
    symmetry. apply firstn_skipn. }
  assert (Hl : length batch = Nat.min size (length links - i)).
  { unfold batch. now rewrite length_firstn, length_skipn. }
  split; [exact Hs|]. split; [|lia].
  rewrite Hs at 1. rewrite number_app.
  destruct (Nat.le_gt_cases size (length links - i)) as [Hle|Hgt].
  - now replace (length batch) with size by lia.
  - rewrite (skipn_all2 links) by lia. reflexivity.
Qed.

(** One iteration of the loop of [downloadAllFiles]: the line of the batch,
    its requests, and the downloads settling; then the rest of the loop, if
    every download of the batch settles, and nothing more if one does
    not. *)
Lemma batchLoop_unfold fuel i results :
  i < length links ->
  let batch := firstn size (skipn i links) in
  let ps := number i batch in
  let order := settleOrder w (2 * length ps) ps [] (completion w i) in
  let tS := fst (settleAll lib w (2 * length ps) ps [] [] (completion w i)
                   results) in
  Forall notRequest tS
  /\ settledIndices tS = map fst order
  /\ Permutation order (filter (settles lib w) ps)
  /\ batchLoop lib w size (S fuel) i links results
     = if forallb (settles lib w) ps
       then (ELog LInfo (MProcessingBatch (i / size + 1) (length batch))
             :: requestsOf lib w ps ++ tS
             ++ fst (batchLoop lib w size fuel (i + size) links
                       (settled lib w results order)),
             snd (batchLoop lib w size fuel (i + size) links
                    (settled lib w results order)))
       else (ELog LInfo (MProcessingBatch (i / size + 1) (length batch))
             :: requestsOf lib w ps ++ tS, Diverge).
Proof.
  intros Hlt batch ps order tS.
  destruct (settleAll_exact lib w (2 * length ps) ps [] [] (completion w i)
              results) as [HS HI]; [cbn [length]; lia | constructor |].
  fold order in HS, HI. fold tS in HI. cbn [length Nat.eqb andb] in HS.
  split; [apply settleAll_no_request|]. split; [exact HI|]. split.
  { unfold order. rewrite <- (app_nil_r (filter _ ps)).
    apply settleOrder_perm. cbn [length]. lia. }
  cbn [batchLoop]. rewrite (proj2 (Nat.ltb_lt _ _) Hlt). cbv zeta.
  rewrite combine_seq_number. fold batch. fold ps.
  unfold log, emit. rewrite bind_pair, requests_spec, !bind_pair.
  cbn [fst snd app].
  destruct (forallb (settles lib w) ps).
  - rewrite (bind_ok _ HS). fold tS. fold order. cbn [fst snd].
    rewrite <- ?app_assoc. reflexivity.
  - rewrite (bind_diverge _ HS). fold tS. reflexivity.
Qed.

(** The loop returns when every download settles, with the entries in the
    order of completion, and never returns otherwise. *)
Lemma batchLoop_result fuel : forall i results,
  length links - i <= fuel ->
  snd (batchLoop lib w size fuel i links results)
  = if forallb (settles lib w) (number i (skipn i links))
    then Ok (settled lib w results (completionOrder w size fuel i links))
    else Diverge.
Proof.
  assert (Hdone : forall fuel i results, length links <= i ->
    snd (batchLoop lib w size fuel i links results)
    = if forallb (settles lib w) (number i (skipn i links))
      then Ok (settled lib w results (completionOrder w size fuel i links))
      else Diverge).
  { intros f i results Hi.
    rewrite (batchLoop_done f i results Hi), (skipn_all2 links Hi).
    cbn [number forallb ret snd].
    replace (completionOrder w size f i links) with (@nil (nat * Link)).
    - now rewrite settled_nil.
    - apply Nat.ltb_ge in Hi. destruct f; cbn [completionOrder];
        now rewrite Hi. }
  induction fuel as [|fuel IH]; intros i results Hfuel.
  { apply Hdone. lia. }
  destruct (Nat.le_gt_cases (length links) i) as [Hge|Hlt];
    [now apply Hdone|].
  destruct (batch_split i Hlt) as (_ & Hnum & _).
  destruct (batchLoop_unfold fuel i results Hlt) as (_ & _ & _ & ->).
  rewrite Hnum, forallb_app.
  cbn [completionOrder]. rewrite (proj2 (Nat.ltb_lt _ _) Hlt).
  rewrite combine_seq_number.
  destruct (forallb (settles lib w) (number i _)); [|reflexivity].
  cbn [snd andb]. rewrite IH by lia.
  destruct (forallb (settles lib w) (number (i + size) _)); [|reflexivity].
  now rewrite settled_app.
Qed.

(** The downloads that settle in the loop are those that can, each once. *)
Lemma completionOrder_perm fuel : forall i,
  length links - i <= fuel ->
  Permutation (completionOrder w size fuel i links)
              (filter (settles lib w) (number i (skipn i links))).
Proof.
  assert (Hdone : forall fuel i, length links <= i ->
    Permutation (completionOrder w size fuel i links)
                (filter (settles lib w) (number i (skipn i links)))).
  { intros f i Hi. rewrite (skipn_all2 links Hi).
    apply Nat.ltb_ge in Hi. destruct f; cbn [completionOrder];
      rewrite Hi; apply perm_nil. }
  induction fuel as [|fuel IH]; intros i Hfuel.
  { apply Hdone. lia. }
  destruct (Nat.le_gt_cases (length links) i) as [Hge|Hlt];
    [now apply Hdone|].
  destruct (batch_split i Hlt) as (_ & Hnum & _).
  destruct (batchLoop_unfold fuel i {| success := []; failed := [] |} Hlt)
    as (_ & _ & Hperm & _).
  rewrite Hnum, filter_app.
  cbn [completionOrder]. rewrite (proj2 (Nat.ltb_lt _ _) Hlt).
  rewrite combine_seq_number.
  apply Permutation_app; [exact Hperm | apply IH; lia].
Qed.

(** While every download settles, the downloads are requested once each,
    in the order of the list, and settle in the order of completion. *)
Lemma batchLoop_indices fuel : forall i results,
  length links - i <= fuel ->
  forallb (settles lib w) (number i (skipn i links)) = true ->
  requestedIndices (fst (batchLoop lib w size fuel i links results))
  = seq (i + 1) (length links - i)
  /\ settledIndices (fst (batchLoop lib w size fuel i links results))
     = map fst (completionOrder w size fuel i links).
Proof.
  assert (Hdone : forall fuel i results, length links <= i ->
    requestedIndices (fst (batchLoop lib w size fuel i links results))
    = seq (i + 1) (length links - i)
    /\ settledIndices (fst (batchLoop lib w size fuel i links results))
       = map fst (completionOrder w size fuel i links)).
  { intros f i results Hi. rewrite (batchLoop_done f i results Hi).
    replace (length links - i) with 0 by lia.
    apply Nat.ltb_ge in Hi. destruct f; cbn [completionOrder];
      rewrite Hi; split; reflexivity. }
  induction fuel as [|fuel IH]; intros i results Hfuel Hall.
  { apply Hdone. lia. }
  destruct (Nat.le_gt_cases (length links) i) as [Hge|Hlt];
    [now apply Hdone|].
  destruct (batch_split i Hlt) as (_ & Hnum & Hb1 & Hb2 & Hb3).
  destruct (batchLoop_unfold fuel i results Hlt) as (HqS & HI & _ & ->).
  rewrite Hnum, forallb_app in Hall. apply andb_prop in Hall.
  destruct Hall as [Hall1 Hall2]. rewrite Hall1. cbn [fst].
  cbn [completionOrder]. rewrite (proj2 (Nat.ltb_lt _ _) Hlt).
  rewrite combine_seq_number.
  set (batch := firstn size (skipn i links)) in *.
  set (ps := number i batch) in *.
  destruct (IH (i + size)
              (settled lib w results
                 (settleOrder w (2 * length ps) ps [] (completion w i))))
    as [IHr IHs]; [lia | exact Hall2 |].
  destruct (requestsOf_indices lib w ps) as [Hr1 Hr2].
  assert (Hseq : seq (i + 1) (length links - i)
                 = seq (S i) (length batch)
                   ++ seq (i + size + 1) (length links - (i + size))).
  { replace (length links - i)
      with (length batch + (length links - (i + size))) by lia.
    rewrite seq_app, Nat.add_1_r. f_equal.
    destruct Hb3 as [Hb3|Hb3].
    - f_equal. lia.
    - replace (length links - (i + size)) with 0 by lia. reflexivity. }
  change (ELog LInfo (MProcessingBatch (i / size + 1) (length batch))
          :: ?l) with ([ELog LInfo (MProcessingBatch (i / size + 1)
                                      (length batch))] ++ l).
  rewrite !requestedIndices_app, !settledIndices_app, Hr1, Hr2, HI, IHr, IHs,
    (requestedIndices_none _ HqS), Hseq, map_app.
  unfold ps at 1. rewrite map_fst_number.
  cbn [requestedIndices settledIndices flat_map app]. split; reflexivity.
Qed.

(** In every run, a request is for a link of the list not yet passed. *)
Lemma batchLoop_requests fuel : forall i results j u,
  In (EAxiosStream j u) (fst (batchLoop lib w size fuel i links results)) ->
  i < j <= length links.
Proof.
  induction fuel as [|fuel IH]; intros i results j u Hin.
  { cbn [batchLoop] in Hin. destruct (i <? length links); destruct Hin. }
  destruct (Nat.le_gt_cases (length links) i) as [Hge|Hlt].
  { rewrite batchLoop_done in Hin by exact Hge. destruct Hin. }
  destruct (batch_split i Hlt) as (_ & _ & Hb1 & _).
  destruct (batchLoop_unfold fuel i results Hlt) as (HqS & _ & _ & Heq).
  rewrite Heq in Hin. clear Heq.
  set (batch := firstn size (skipn i links)) in *.
  set (ps := number i batch) in *.
  assert (Hhead : forall t,
    In (EAxiosStream j u)
       (ELog LInfo (MProcessingBatch (i / size + 1) (length batch))
        :: requestsOf lib w ps ++ t) ->
    i < j <= i + length batch \/ In (EAxiosStream j u) t).
  { intros t [H|H]; [discriminate H|]. apply in_app_or in H.
    destruct H as [H|H]; [left | now right].
    apply requestsOf_issue in H. destruct H as (l & H & _).
    apply (number_bounds _ _ _ _ H). }
  rewrite Forall_forall in HqS.
  destruct (forallb (settles lib w) ps); cbn [fst] in Hin;
    apply Hhead in Hin; destruct Hin as [Hin|Hin]; try lia.
  - apply in_app_or in Hin. destruct Hin as [Hin|Hin].
    + specialize (HqS _ Hin). discriminate HqS.
    + apply IH in Hin. lia.
  - specialize (HqS _ Hin). discriminate HqS.
Qed.

(** In every run, whether it ends or not: when a request is issued, every
    download of every earlier batch has settled. *)
Lemma batchLoop_batch_order fuel : forall i results,
  (exists k, i = k * size) ->
  forall t1 j u t2,
    fst (batchLoop lib w size fuel i links results)
    = t1 ++ EAxiosStream j u :: t2 ->
    forall m, i < m <= length links ->
              (m - 1) / size < (j - 1) / size ->
              exists b, In (ESettled m b) t1.
Proof.
  induction fuel as [|fuel IH]; intros i results [k Hk] t1 j u t2 Heq m Hm Hdiv.
  { cbn [batchLoop] in Heq. destruct (i <? length links);
      now apply app_cons_not_nil in Heq. }
  destruct (Nat.le_gt_cases (length links) i) as [Hge|Hlt]; [lia|].
  assert (Hj : i < j <= length links).
  { apply (batchLoop_requests (S fuel) i results j u).
    rewrite Heq. apply in_elt. }
  destruct (batch_split i Hlt) as (_ & _ & Hb1 & Hb2 & Hb3).
  destruct (batchLoop_unfold fuel i results Hlt) as (HqS & HI & Hperm & Hrun).
  rewrite Hrun in Heq. clear Hrun.
  set (batch := firstn size (skipn i links)) in *.
  set (ps := number i batch) in *.
  set (order := settleOrder w (2 * length ps) ps [] (completion w i)) in *.
  set (tS := fst (settleAll lib w (2 * length ps) ps [] [] (completion w i)
                    results)) in *.
  set (hd := ELog LInfo (MProcessingBatch (i / size + 1) (length batch))) in *.
  (* a request of this batch has no earlier batch at or after offset [i] *)
  assert (Hown : i < j <= i + length batch -> False).
  { intros Hj'.
    assert (Hup : (j - 1) / size < S k)
      by (apply Nat.Div0.div_lt_upper_bound; nia).
    assert (Hlow : k <= (m - 1) / size)
      by (apply Nat.div_le_lower_bound; nia).
    lia. }
  assert (HissR : forall l, In (EAxiosStream j u) (hd :: requestsOf lib w ps ++ l) ->
            In (EAxiosStream j u) l).
  { intros l [H|H]; [discriminate H|]. apply in_app_or in H.
    destruct H as [H|H]; [|exact H].
    apply requestsOf_issue in H. destruct H as (x & H & _).
    apply number_bounds in H. exfalso. apply Hown. exact H. }
  assert (Hnext : exists k', i + size = k' * size)
    by (exists (S k); cbn; lia).
  rewrite Forall_forall in HqS.
  destruct (forallb (settles lib w) ps) eqn:Hall; cbn [fst] in Heq.
  - (* the request is in a later batch *)
    assert (HsetS : forall m', i < m' <= i + length batch ->
              exists b, In (ESettled m' b) tS).
    { intros m' Hm'. apply In_settledIndices. rewrite HI.
      destruct (number_covers batch i m' Hm') as [x Hx].
      apply in_map_iff. exists (m', x). split; [reflexivity|].
      apply (Permutation_in _ (Permutation_sym Hperm)).
      rewrite (forallb_filter_id _ _ Hall). exact Hx. }
    assert (Hshape : forall l,
              hd :: requestsOf lib w ps ++ tS ++ l
              = (hd :: requestsOf lib w ps ++ tS) ++ l)
      by (intros l; cbn [app]; now rewrite app_assoc).
    rewrite Hshape in Heq.
    apply app_eq_app in Heq. destruct Heq as [l [[E1 E2]|[E1 E2]]].
    + destruct l as [|e l].
      * cbn [app] in E2. rewrite app_nil_r in E1. subst t1.
        destruct (Nat.le_gt_cases m (i + length batch)) as [Hin|Hout].
        -- destruct (HsetS m) as [b Hb]; [lia|]. exists b.
           right. apply in_or_app. right. exact Hb.
        -- destruct (IH (i + size) _ Hnext [] j u t2 (eq_sym E2) m)
             as [b []]; [lia | exact Hdiv].
      * inversion E2; subst e. exfalso.
        assert (Hin : In (EAxiosStream j u)
                         (hd :: requestsOf lib w ps ++ tS))
          by (rewrite E1; apply in_elt).
        apply HissR in Hin. specialize (HqS _ Hin). discriminate HqS.
    + subst t1.
      destruct (Nat.le_gt_cases m (i + length batch)) as [Hin|Hout].
      * destruct (HsetS m) as [b Hb]; [lia|]. exists b.
        apply in_or_app. left. right. apply in_or_app. right. exact Hb.
      * destruct (IH (i + size) _ Hnext l j u t2 E2 m) as [b Hb];
          [lia | exact Hdiv |].
        exists b. apply in_or_app. right. exact Hb.
  - exfalso.
    assert (Hin : In (EAxiosStream j u) (hd :: requestsOf lib w ps ++ tS))
      by (rewrite Heq; apply in_elt).
    apply HissR in Hin. specialize (HqS _ Hin). discriminate HqS.
Qed.

End BatchLoop.

(** With a batch size of zero the loop of [downloadAllFiles] would never
    end; the constant of the program is 5. *)
Lemma batchLoop_zero_size_diverges lib w links fuel : forall i results,
  i < length links ->
  snd (batchLoop lib w 0 fuel i links results) = Diverge.
Proof.
  induction fuel as [|fuel IH]; intros i results Hi; cbn [batchLoop];
    rewrite (proj2 (Nat.ltb_lt _ _) Hi); [reflexivity|].
  cbn [firstn length seq combine forOf settleAll Nat.mul app].
  unfold log, emit, ret. rewrite !bind_pair. cbn [fst snd].
  apply IH. lia.
Qed.

Section DownloadAll.

Variable lib : Lib.
Variable w : World.

(** Every numbered link whose download settles contributes one entry, to
    one of the two lists; a download that never settles contributes none. *)
Lemma entries_partition ps :
  Permutation
    (map linkOfDownloaded (resolvedEntries lib w ps)
     ++ map linkOfFailed (rejectedEntries lib w ps))
    (map snd (filter (settles lib w) ps)).
Proof.
  induction ps as [|[j [u f]] ps IH]; [constructor|].
  cbn [resolvedEntries rejectedEntries flat_map map filter fst snd].
  unfold settles at 1, stalled. cbn [fst snd].
  destruct (snd (downloadFile_settle lib w (mkLink u f) j)) as [path|e|];
    cbn [app map negb snd linkOfDownloaded linkOfFailed d_url
           d_filename f_url f_filename url filename].
  - constructor. exact IH.
  - etransitivity; [symmetry; apply Permutation_middle|].
    constructor. exact IH.
  - exact IH.
Qed.

Lemma rejectedEntries_names ps :
  map f_filename (rejectedEntries lib w ps)
  = map (fun p => filename (snd p)) (filter (rejects lib w) ps).
Proof.
  induction ps as [|p ps IH]; [reflexivity|].
  cbn [rejectedEntries flat_map filter]. unfold rejects at 1.
  destruct (snd (downloadFile_settle lib w (snd p) (fst p)));
    cbn [app map f_filename]; now f_equal.
Qed.

(** Every download of the list settles. *)
Lemma all_settle_iff links :
  forallb (settles lib w) (number 0 links) = true
  <-> forall k link, nth_error links k = Some link ->
                     stalled lib w (S k, link) = false.
Proof.
  rewrite forallb_forall. split.
  - intros H k link Hk. apply Bool.negb_true_iff. apply (H (S k, link)).
    apply number_nth. exists k. auto.
  - intros H [j l] Hin. apply number_nth in Hin.
    destruct Hin as (k & -> & Hk). apply Bool.negb_true_iff.
    exact (H k l Hk).
Qed.

Lemma some_stalled_iff links :
  forallb (settles lib w) (number 0 links) = false
  <-> exists k link, nth_error links k = Some link
                     /\ stalled lib w (S k, link) = true.
Proof.
  split.
  - intros H.
    assert (Hex : existsb (stalled lib w) (number 0 links) = true).
    { revert H. generalize (number 0 links).
      induction l as [|p l IH]; cbn [forallb existsb]; [discriminate|].
      unfold settles at 1. destruct (stalled lib w p); cbn; auto. }
    apply existsb_exists in Hex. destruct Hex as ([j l] & Hin & Hst).
    apply number_nth in Hin. destruct Hin as (k & -> & Hk).
    exists k, l. auto.
  - intros (k & link & Hk & Hst).
    destruct (forallb (settles lib w) (number 0 links)) eqn:E;
      [|reflexivity].
    rewrite (proj1 (all_settle_iff links) E k link Hk) in Hst.
    discriminate Hst.
Qed.

(** [downloadAllFiles] as a whole: the loop, then the summary if the loop
    ends. *)
Lemma downloadAllFiles_eq links :
  let run := batchLoop lib w CONFIG_maxConcurrentDownloads (length links) 0
               links {| success := []; failed := [] |} in
  let r := settled lib w {| success := []; failed := [] |}
             (completionOrder w CONFIG_maxConcurrentDownloads
                (length links) 0 links) in
  downloadAllFiles lib w links
  = if forallb (settles lib w) (number 0 links)
    then (fst run ++ [ELog LInfo (MDownloadSummary (length (success r))
                                    (length (failed r)))], Ok r)
    else (fst run, Diverge).
Proof.
  intros run r.
  pose proof (@batchLoop_result lib w links CONFIG_maxConcurrentDownloads
                (Nat.lt_0_succ _) (length links) 0
                {| success := []; failed := [] |}) as H.
  cbn [skipn] in H. fold run in H. fold r in H. unfold downloadAllFiles.
  fold run. destruct (forallb (settles lib w) (number 0 links)).
  - rewrite (bind_ok _ (H ltac:(lia))). reflexivity.
  - rewrite (bind_diverge _ (H ltac:(lia))). reflexivity.
Qed.

Lemma downloadAllFiles_outcome links :
  snd (downloadAllFiles lib w links)
  = if forallb (settles lib w) (number 0 links)
    then Ok (settled lib w {| success := []; failed := [] |}
               (completionOrder w CONFIG_maxConcurrentDownloads
                  (length links) 0 links))
    else Diverge.
Proof.
  rewrite downloadAllFiles_eq.
  destruct (forallb (settles lib w) (number 0 links)); reflexivity.
Qed.

Lemma downloadAllFiles_returns links r :
  snd (downloadAllFiles lib w links) = Ok r ->
  forallb (settles lib w) (number 0 links) = true
  /\ r = settled lib w {| success := []; failed := [] |}
           (completionOrder w CONFIG_maxConcurrentDownloads
              (length links) 0 links).
Proof.
  rewrite downloadAllFiles_outcome.
  destruct (forallb (settles lib w) (number 0 links)); [|discriminate].
  intros H. now injection H as <-.
Qed.


(** When every download settles, [downloadAllFiles] returns; its results
    hold the entries of all links, each in the list that its own download
    selects; every download is requested, in the order of the list, and
    settles. *)
Lemma downloadAllFiles_spec links :
  forallb (settles lib w) (number 0 links) = true ->
  exists t r,
    downloadAllFiles lib w links
    = (t ++ [ELog LInfo (MDownloadSummary (length (success r))
                                          (length (failed r)))], Ok r)
    /\ Permutation (success r) (resolvedEntries lib w (number 0 links))
    /\ Permutation (failed r) (rejectedEntries lib w (number 0 links))
    /\ requestedIndices t = seq 1 (length links)
    /\ Permutation (settledIndices t) (seq 1 (length links)).
Proof.
  intros Hall.
  pose proof (@completionOrder_perm lib w links CONFIG_maxConcurrentDownloads
                (Nat.lt_0_succ _) (length links) 0 ltac:(lia)) as Hperm.
  cbn [skipn] in Hperm. rewrite (forallb_filter_id _ _ Hall) in Hperm.
  destruct (@batchLoop_indices lib w links CONFIG_maxConcurrentDownloads
              (Nat.lt_0_succ _) (length links) 0
              {| success := []; failed := [] |}) as [Hr Hs];
    [lia | exact Hall |].
  rewrite Nat.sub_0_r in Hr. cbn [Nat.add] in Hr.
  eexists _, _. rewrite downloadAllFiles_eq, Hall.
  split; [reflexivity|]. cbn [settled success failed app].
  split; [|split; [|split]].
  - unfold resolvedEntries. now apply Permutation_flat_map.
  - unfold rejectedEntries. now apply Permutation_flat_map.
  - exact Hr.
  - rewrite Hs, <- (map_fst_number links 0). now apply Permutation_map.
Qed.

(** In every run: when a request is issued, every download of every
    earlier batch has settled. *)
Lemma downloadAllFiles_batch_order links t1 j u t2 :
  fst (downloadAllFiles lib w links) = t1 ++ EAxiosStream j u :: t2 ->
  forall m, 1 <= m <= length links -> batchOf m < batchOf j ->
            exists b, In (ESettled m b) t1.
Proof.
  intros Heq m Hm Hdiv.
  pose proof (@batchLoop_batch_order lib w links CONFIG_maxConcurrentDownloads
                (Nat.lt_0_succ _) (length links) 0
                {| success := []; failed := [] |}
                (ex_intro _ 0 eq_refl)) as Hord.
  rewrite downloadAllFiles_eq in Heq.
  destruct (forallb (settles lib w) (number 0 links)); cbn [fst] in Heq.
  - destruct t2 as [|e t2] using rev_ind.
    + apply app_inj_tail in Heq. destruct Heq as [_ Heq]. discriminate Heq.
    + clear IHt2. rewrite app_comm_cons, app_assoc in Heq.
      apply app_inj_tail in Heq. destruct Heq as [Heq _].
      apply (Hord _ _ _ _ Heq m); [lia | exact Hdiv].
  - apply (Hord _ _ _ _ Heq m); [lia | exact Hdiv].
Qed.

End DownloadAll.

(* ================================================================== *)
(** ** A download that never settles *)
(* ================================================================== *)

Section Stalls.

Variable lib : Lib.
Variable w : World.

(** Only downloads that can settle do. *)
Lemma batchLoop_settled_only links size (size_pos : 0 < size) fuel :
  forall i results m,
    In m (settledIndices (fst (batchLoop lib w size fuel i links results))) ->
    exists l, In (m, l) (number i (skipn i links))
              /\ settles lib w (m, l) = true.
Proof.
  induction fuel as [|fuel IH]; intros i results m Hin.
  { cbn [batchLoop] in Hin. destruct (i <? length links); destruct Hin. }
  destruct (Nat.le_gt_cases (length links) i) as [Hge|Hlt].
  { rewrite batchLoop_done in Hin by exact Hge. destruct Hin. }
  destruct (batch_split links size size_pos i Hlt) as (_ & Hnum & _).
  destruct (batchLoop_unfold lib w links size size_pos fuel i results Hlt)
    as (_ & HI & Hperm & Heq).
  rewrite Heq in Hin. clear Heq. rewrite Hnum.
  set (batch := firstn size (skipn i links)) in *.
  set (ps := number i batch) in *.
  destruct (requestsOf_indices lib w ps) as [_ Hr2].
  assert (Hown : forall t,
    In m (settledIndices
            (ELog LInfo (MProcessingBatch (i / size + 1) (length batch))
             :: requestsOf lib w ps
                ++ fst (settleAll lib w (2 * length ps) ps [] []
                          (completion w i) results) ++ t)) ->
    (exists l, In (m, l) ps /\ settles lib w (m, l) = true)
    \/ In m (settledIndices t)).
  { intros t H.
    change (ELog LInfo (MProcessingBatch (i / size + 1) (length batch))
            :: ?l) with ([ELog LInfo (MProcessingBatch (i / size + 1)
                                        (length batch))] ++ l) in H.
    rewrite !settledIndices_app, Hr2, HI in H. cbn [settledIndices flat_map
      app] in H. apply in_app_or in H. destruct H as [H|H]; [left|now right].
    apply in_map_iff in H. destruct H as ([m' l] & Hm & H).
    cbn [fst] in Hm. subst m'. apply (Permutation_in _ Hperm) in H.
    apply filter_In in H. eauto. }
  destruct (forallb (settles lib w) ps); cbn [fst] in Hin.
  - apply Hown in Hin. destruct Hin as [(l & Hl & Hs)|Hin].
    + exists l. split; [apply in_or_app; now left | exact Hs].
    + apply IH in Hin. destruct Hin as (l & Hl & Hs).
      exists l. split; [apply in_or_app; now right | exact Hs].
  - rewrite <- (app_nil_r (fst (settleAll _ _ _ _ _ _ _ _))) in Hin.
    apply Hown in Hin. destruct Hin as [(l & Hl & Hs)|[]].
    exists l. split; [apply in_or_app; now left | exact Hs].
Qed.

Lemma downloadAllFiles_settled_indices links :
  settledIndices (fst (downloadAllFiles lib w links))
  = settledIndices
      (fst (batchLoop lib w CONFIG_maxConcurrentDownloads (length links) 0
              links {| success := []; failed := [] |})).
Proof.
  rewrite downloadAllFiles_eq.
  destruct (forallb (settles lib w) (number 0 links)); cbn [fst];
    [|reflexivity].
  rewrite settledIndices_app. cbn. now rewrite app_nil_r.
Qed.

(** A download that never settles is not in the trace as settled. *)
Lemma stalled_never_settles links k link b :
  nth_error links k = Some link ->
  stalled lib w (S k, link) = true ->
  ~ In (ESettled (S k) b) (fst (downloadAllFiles lib w links)).
Proof.
  intros Hk Hst Hin.
  assert (H : In (S k) (settledIndices (fst (downloadAllFiles lib w links))))
    by (apply In_settledIndices; eauto).
  rewrite downloadAllFiles_settled_indices in H.
  apply (batchLoop_settled_only links _ (Nat.lt_0_succ _)) in H.
  destruct H as (l & Hl & Hs). cbn [skipn] in Hl.
  apply number_nth in Hl. destruct Hl as (k' & E & Hk').
  assert (k' = k) by lia. subst k'.
  assert (l = link) by congruence. subst l.
  unfold settles in Hs. rewrite Hst in Hs. discriminate Hs.
Qed.

(** Nothing of a later batch is requested. *)
Lemma stalled_blocks_later_batches links k link m u :
  nth_error links k = Some link ->
  stalled lib w (S k, link) = true ->
  batchOf (S k) < batchOf m ->
  ~ In (EAxiosStream m u) (fst (downloadAllFiles lib w links)).
Proof.
  intros Hk Hst Hb Hin.
  apply in_split in Hin. destruct Hin as (t1 & t2 & Heq).
  assert (Hlen : k < length links) by (apply nth_error_Some; congruence).
  destruct (downloadAllFiles_batch_order lib w links _ _ _ _ Heq (S k))
    as [b Hin]; [lia | exact Hb |].
  apply (stalled_never_settles links k link b Hk Hst).
  rewrite Heq. apply in_or_app. now left.
Qed.

Lemma broken_body_stalls k link :
  axios_stream w (S k) link = None ->
  write_stream w (S k) link = WNever ->
  stalled lib w (S k, link) = true.
Proof.
  intros Ha Hw. rewrite stalled_eq. unfold requestFails, neverCloses.
  cbn [fst snd]. now rewrite Ha, Hw.
Qed.

Lemma downloadAllFiles_stalls links k link :
  nth_error links k = Some link ->
  stalled lib w (S k, link) = true ->
  snd (downloadAllFiles lib w links) = Diverge.
Proof.
  intros Hk Hst. rewrite downloadAllFiles_outcome.
  now rewrite (proj2 (some_stalled_iff lib w links)) by eauto.
Qed.

End Stalls.

(** C1 does not hold of the code.  [downloadFile] pipes the response into
    the write stream and listens to the write stream only; when the body of
    a response breaks off after its headers, the write stream is never
    ended, and the promise of that download never settles.  Then
    [downloadAllFiles] never returns: there are no results, so no outcome
    for any of the N links; the download itself never settles; and
    [downloadAllFiles] returns at all only if no download is such. *)
Theorem downloadAllFiles_hangs_on_broken_body
    (lib : Lib) (w : World) (links : list Link) (k : nat) (link : Link) :
  nth_error links k = Some link ->
  axios_stream w (S k) link = None ->
  write_stream w (S k) link = WNever ->
  snd (downloadAllFiles lib w links) = Diverge
  /\ (forall r, snd (downloadAllFiles lib w links) <> Ok r)
  /\ (forall b,
        ~ In (ESettled (S k) b) (fst (downloadAllFiles lib w links))).
Proof.
  intros Hk Ha Hw.
  pose proof (broken_body_stalls lib w k link Ha Hw) as Hst.
  pose proof (downloadAllFiles_stalls lib w links k link Hk Hst) as Hd.
  split; [exact Hd|]. split.
  - intros r Hr. rewrite Hd in Hr. discriminate Hr.
  - intros b. now apply (stalled_never_settles lib w links k link).
Qed.

Lemma downloadAllFiles_hangs_on_broken_body_witness :
  snd (downloadAllFiles (libWith []) stallingWorld sevenLinks) = Diverge
  /\ (forall r,
        snd (downloadAllFiles (libWith []) stallingWorld sevenLinks) <> Ok r)
  /\ (forall b,
        ~ In (ESettled 2 b)
             (fst (downloadAllFiles (libWith []) stallingWorld sevenLinks))).
Proof.
  apply (downloadAllFiles_hangs_on_broken_body (libWith []) stallingWorld
           sevenLinks 1 (linkNo 2)); reflexivity.
Defined.

(** C4 does not hold of the code, by the same defect.  A download that
    fails because the body of its response breaks off never settles: there
    are no results, so its link is in no [failed] list; and no download of
    a later batch is ever requested, also not one that would succeed. *)
Theorem broken_body_blocks_later_batches
    (lib : Lib) (w : World) (links : list Link)
    (k : nat) (link : Link) (k' : nat) (link' : Link) (path : jsstring) :
  nth_error links k = Some link ->
  axios_stream w (S k) link = None ->
  write_stream w (S k) link = WNever ->
  nth_error links k' = Some link' ->
  snd (downloadFile_settle lib w link' (S k')) = Ok path ->
  batchOf (S k) < batchOf (S k') ->
  (forall r, snd (downloadAllFiles lib w links) <> Ok r)
  /\ (forall u,
        ~ In (EAxiosStream (S k') u) (fst (downloadAllFiles lib w links))).
Proof.
  intros Hk Ha Hw Hk' _ Hb.
  pose proof (broken_body_stalls lib w k link Ha Hw) as Hst.
  pose proof (downloadAllFiles_stalls lib w links k link Hk Hst) as Hd.
  split.
  - intros r Hr. rewrite Hd in Hr. discriminate Hr.
  - intros u. now apply (stalled_blocks_later_batches lib w links k link).
Qed.

Lemma broken_body_blocks_later_batches_witness :
  (forall r,
      snd (downloadAllFiles (libWith []) stallingWorld sevenLinks) <> Ok r)
  /\ (forall u,
        ~ In (EAxiosStream 6 u)
             (fst (downloadAllFiles (libWith []) stallingWorld sevenLinks))).
Proof.
  apply (broken_body_blocks_later_batches (libWith []) stallingWorld
           sevenLinks 1 (linkNo 2) 5 (linkNo 6)
           (js "/app/downloads/2025-05-15/Cjenik_6.csv"));
    try reflexivity.
  vm_compute. lia.
Defined.

(** C10: the file names that the run metadata records as failed are the
    [filename]s of the links whose download failed, as extracted from the
    page, one per failed link; the sanitized name of the destination path
    is not what is recorded.  Results exist, and metadata is recorded, when
    every download settles. *)
Theorem failedFiles_are_link_filenames
    (lib : Lib) (w : World) (links : list Link) :
  ((forall k link, nth_error links k = Some link ->
                   stalled lib w (S k, link) = false) ->
   exists t r, downloadAllFiles lib w links = (t, Ok r))
  /\ (forall r,
        snd (downloadAllFiles lib w links) = Ok r ->
        Permutation (failedFiles (metadataOf lib w r))
          (map (fun p => filename (snd p))
               (filter (rejects lib w) (number 0 links)))
        /\ (forall k link e,
              nth_error links k = Some link ->
              snd (downloadFile_settle lib w link (S k)) = Throw e ->
              In (filename link) (failedFiles (metadataOf lib w r)))
        /\ (forall name,
              In name (failedFiles (metadataOf lib w r)) ->
              exists k link,
                nth_error links k = Some link /\ name = filename link
                /\ rejects lib w (S k, link) = true)).
Proof.
  split.
  { intros Hall. apply all_settle_iff in Hall.
    destruct (downloadAllFiles_spec lib w links Hall) as (t & r & Hrun & _).
    eauto. }
  intros r Hr.
  destruct (downloadAllFiles_returns lib w links r Hr) as [Hall _].
  destruct (downloadAllFiles_spec lib w links Hall)
    as (t & r' & Hrun & _ & Hf & _).
  assert (r' = r) by (rewrite Hrun in Hr; now injection Hr). subst r'.
  assert (Hperm : Permutation (failedFiles (metadataOf lib w r))
            (map (fun p => filename (snd p))
                 (filter (rejects lib w) (number 0 links)))).
  { cbn [metadataOf failedFiles].
    rewrite (Permutation_map f_filename Hf). now rewrite rejectedEntries_names. }
  split; [exact Hperm|]. split.
  - intros k link e Hk He.
    apply (Permutation_in _ (Permutation_sym Hperm)).
    apply in_map_iff. exists (S k, link). split; [reflexivity|].
    apply filter_In. split.
    + apply number_nth. exists k. auto.
    + unfold rejects. cbn [fst snd]. now rewrite He.
  - intros name Hin. apply (Permutation_in _ Hperm) in Hin.
    apply in_map_iff in Hin. destruct Hin as ([j l] & <- & Hin).
    apply filter_In in Hin. destruct Hin as [Hin Hrej].
    apply number_nth in Hin. destruct Hin as (k & -> & Hk).
    exists k, l. auto.
Qed.

Lemma failedFiles_are_link_filenames_witness :
  snd (downloadAllFiles (libWith []) flakyWorld sevenLinks) = Ok flakyResults
  /\ In (js "Cjenik 2.csv")
        (failedFiles (metadataOf (libWith []) flakyWorld flakyResults)).
Proof.
  assert (H : snd (downloadAllFiles (libWith []) flakyWorld sevenLinks)
              = Ok flakyResults) by reflexivity.
  split; [exact H|].
  apply (proj1 (proj2 (proj2 (failedFiles_are_link_filenames
                                (libWith []) flakyWorld sevenLinks)
                             flakyResults H))
           1 (linkNo 2) ETIMEDOUT); reflexivity.
Defined.

(** With downloads 2 and 6 of seven failing, the metadata lists the names
    of the links, which differ from the names written to disk. *)
Example failedFiles_example :
  option_map (fun r => failedFiles (metadataOf (libWith []) flakyWorld r))
    (match snd (downloadAllFiles (libWith []) flakyWorld sevenLinks) with
     | Ok r => Some r
     | _ => None
     end)
  = Some [js "Cjenik 2.csv"; js "Cjenik 6.csv"]
  /\ sanitize (js "Cjenik 2.csv") = js "Cjenik_2.csv".
Proof. vm_compute. split; reflexivity. Qed.

(* ================================================================== *)
(** ** Post-processing *)
(* ================================================================== *)

Lemma bind_settles {A B} (m : M A) (k : A -> M B) :
  snd m <> Diverge -> (forall a, snd (k a) <> Diverge) ->
  snd (bind m k) <> Diverge.
Proof.
  intros Hm Hk. unfold bind. destruct (snd m); cbn; auto. discriminate.
Qed.





Section PostProcessing.

Variable lib : Lib.
Variable w : World.






End PostProcessing.



(** The archive cannot be extracted and the copy of the second file fails:
    both errors are logged, and the third file is still copied. *)
Example brokenDisk_run :
  snd (processDownloadedFiles (libWith []) brokenDisk threeFiles) = Ok tt
  /\ flat_map (fun e => match e with
                        | ELog LError (MErrorProcessing name _) => [name]
                        | ELog LInfo (MCopied name) => [name]
                        | _ => []
                        end)
       (fst (processDownloadedFiles (libWith []) brokenDisk threeFiles))
     = [js "a.zip"; js "b.csv"; js "c.csv"].
Proof. vm_compute. split; reflexivity. Qed.



(* ================================================================== *)
(** ** Link extraction as a whole *)
(* ================================================================== *)

Lemma bind_ok_inv {A B} (m : M A) (k : A -> M B) b :
  snd (bind m k) = Ok b -> exists a, snd m = Ok a /\ snd (k a) = Ok b.
Proof.
  unfold bind. destruct (snd m) as [a| |]; cbn; try discriminate. eauto.
Qed.

Lemma bind_throw_inv {A B} (m : M A) (k : A -> M B) e :
  snd (bind m k) = Throw e ->
  snd m = Throw e \/ exists a, snd m = Ok a /\ snd (k a) = Throw e.
Proof.
  unfold bind. destruct (snd m) as [a| |]; cbn; intros H;
    [right; exists a; auto | left; congruence | discriminate H].
Qed.


(** What [each] returns, element by element. *)
Lemma each_ok_inv body els : forall i links,
  snd (each i els body) = Ok links ->
  Forall2 (fun p l => snd (body (fst p) (snd p)) = Ok l)
          (combine (seq i (length els)) els) links.
Proof.
  induction els as [|el r IH]; intros i links H; cbn [each] in H.
  - inversion H. constructor.
  - apply bind_ok_inv in H. destruct H as (l & Hl & H).
    apply bind_ok_inv in H. destruct H as (ls & Hls & H).
    inversion H; subst. cbn [length seq combine].
    constructor; [exact Hl | apply IH, Hls].
Qed.

Lemma each_throw_inv body els : forall i e,
  snd (each i els body) = Throw e ->
  exists j el, In el els /\ snd (body j el) = Throw e.
Proof.
  induction els as [|el r IH]; intros i e H; cbn [each] in H.
  - discriminate H.
  - apply bind_throw_inv in H. destruct H as [H|(l & _ & H)].
    + exists i, el. split; [now left | exact H].
    + apply bind_throw_inv in H. destruct H as [H|(ls & _ & H)];
        [|discriminate H].
      destruct (IH _ _ H) as (j & el' & Hin & Hj).
      exists j, el'. split; [now right | exact Hj].
Qed.

Lemma each_silent body els :
  (forall i el, fst (body i el) = []) ->
  forall i, fst (each i els body) = [].
Proof.
  intros Hb. induction els as [|el r IH]; intros i; cbn [each];
    [reflexivity|].
  unfold bind. rewrite Hb.
  destruct (snd (body i el)); cbn [fst app]; try reflexivity.
  rewrite IH. destruct (snd (each (S i) r body)); reflexivity.
Qed.

Lemma each_settles body els :
  (forall i el, snd (body i el) <> Diverge) ->
  forall i, snd (each i els body) <> Diverge.
Proof.
  intros Hb. induction els as [|el r IH]; intros i; cbn [each].
  - discriminate.
  - apply bind_settles; [apply Hb|]. intros l.
    apply bind_settles; [apply IH|]. discriminate.
Qed.

Lemma combine_seq_In {A} (l : list A) x :
  In x l -> forall i, exists n, In (i + n, x) (combine (seq i (length l)) l).
Proof.
  induction l as [|y l IH]; intros [] i; cbn [length seq combine].
  - subst. exists 0. left. f_equal. lia.
  - destruct (IH H (S i)) as [n Hn]. exists (S n). right.
    now replace (i + S n) with (S i + n) by lia.
Qed.

(** An element without [href] makes the loop throw, wherever it stands. *)
Lemma each_throws_on body els el :
  (forall i el', snd (body i el') <> Diverge) ->
  In el els ->
  (forall i, exists e, snd (body i el) = Throw e) ->
  forall i, exists e, snd (each i els body) = Throw e.
Proof.
  intros Hb Hin Hth i.
  destruct (snd (each i els body)) as [links| |] eqn:E; eauto.
  - exfalso. apply each_ok_inv in E.
    assert (Hall : forall p, In p (combine (seq i (length els)) els) ->
                     exists l, snd (body (fst p) (snd p)) = Ok l).
    { clear -E. induction E; intros p [].
      - subst. eauto.
      - now apply IHE. }
    destruct (combine_seq_In els el Hin i) as (n & Hn).
    destruct (Hall (i + n, el) Hn) as [l Hl].
    cbn [fst snd] in Hl. destruct (Hth (i + n)) as [e He]. congruence.
  - exfalso. now apply (each_settles body els Hb i).
Qed.

Lemma primaryLink_settles i el : snd (primaryLink i el) <> Diverge.
Proof.
  unfold primaryLink, absoluteUrlOf.
  destruct (orElse (download el) (trim (text el))), (href el); discriminate.
Qed.

Lemma fallbackLink_settles i el : snd (fallbackLink i el) <> Diverge.
Proof. unfold fallbackLink, absoluteUrlOf. destruct (href el); discriminate. Qed.

Lemma placeholder_nonempty i : placeholder i <> [].
Proof. discriminate. Qed.

(** What either method makes of one element. *)
Lemma primaryLink_ok_inv i el l :
  snd (primaryLink i el) = Ok l ->
  exists u, href el = Some u
            /\ url l = (if startsWithSlash u then origin ++ u else u)
            /\ filename l <> [].
Proof.
  unfold primaryLink, absoluteUrlOf. intros H.
  destruct (href el) as [u|].
  - exists u. split; [reflexivity|].
    destruct (orElse (download el) (trim (text el))) as [|c r];
      cbn in H; inversion H; subst; cbn [url filename];
      (split; [reflexivity|]); try discriminate.
    destruct (lastSegment u); discriminate.
  - destruct (orElse (download el) (trim (text el))); discriminate H.
Qed.

Lemma fallbackLink_ok_inv i el l :
  snd (fallbackLink i el) = Ok l ->
  exists u, href el = Some u
            /\ url l = (if startsWithSlash u then origin ++ u else u)
            /\ filename l <> [].
Proof.
  unfold fallbackLink, absoluteUrlOf. intros H.
  destruct (href el) as [u|]; [|discriminate H].
  exists u. split; [reflexivity|].
  cbn in H. inversion H; subst. cbn [url filename].
  split; [reflexivity|]. destruct (trim (text el)); discriminate.
Qed.

Section Extraction.

Variable lib : Lib.
Variable w : World.

(** The primary method, once the page is fetched: its outcome is the one of
    the loop over the matched elements, unless the links cannot be saved. *)
Lemma extractDownloadLinks_fetched html :
  axios_get w = inr html ->
  extractDownloadLinks lib w
  = match snd (each 0 (cheerio_select lib html) primaryLink) with
    | Ok links =>
        ([ELog LInfo (MFetchingHtml CONFIG_url); EAxiosGet CONFIG_url;
          ELog LInfo (MFound (length links));
          EWriteLinks (path_join lib (CONFIG_downloadDir lib w)
                                 (js "_links.json")) links]
         ++ match write_links w with
            | Some e => [ELog LError (MErrorExtractingLinks (message e))]
            | None => []
            end,
         match write_links w with Some e => Throw e | None => Ok links end)
    | Throw e =>
        ([ELog LInfo (MFetchingHtml CONFIG_url); EAxiosGet CONFIG_url;
          ELog LError (MErrorExtractingLinks (message e))], Throw e)
    | Diverge =>
        ([ELog LInfo (MFetchingHtml CONFIG_url); EAxiosGet CONFIG_url],
         Diverge)
    end.
Proof.
  intros Hget.
  unfold extractDownloadLinks, fetched, call, log, emit, ret, throw.
  rewrite Hget.
  pose proof (each_silent primaryLink (cheerio_select lib html)
                primaryLink_silent 0) as Hs.
  destruct (snd (each 0 (cheerio_select lib html) primaryLink))
    as [links|e|] eqn:E; [destruct (write_links w)| |];
    unfold try_catch, bind;
    repeat (cbn [fst snd app]; rewrite ?E, ?Hs); reflexivity.
Qed.

(** The backup method, once [curl] has answered. *)
Lemma fetchLinksWithCurl_fetched out :
  exec_curl w = inr out ->
  fetchLinksWithCurl lib w
  = match snd (each 0 (cheerio_select lib out) fallbackLink) with
    | Ok links =>
        ([ELog LInfo MTryingCurl; EExecCurl curlCommand;
          ELog LInfo (MFoundWithCurl (length links))], Ok links)
    | Throw e =>
        ([ELog LInfo MTryingCurl; EExecCurl curlCommand;
          ELog LError (MErrorParsingCurl (message e))], Throw e)
    | Diverge => ([ELog LInfo MTryingCurl; EExecCurl curlCommand], Diverge)
    end.
Proof.
  intros Hc. unfold fetchLinksWithCurl, log, emit, ret, throw. rewrite Hc.
  pose proof (each_silent fallbackLink (cheerio_select lib out)
                fallbackLink_silent 0) as Hs.
  destruct (snd (each 0 (cheerio_select lib out) fallbackLink)) eqn:E;
    unfold try_catch, bind;
    repeat (cbn [fst snd app]; rewrite ?E, ?Hs); reflexivity.
Qed.




(** The links that [getLinks] returns come from the elements of one of the
    two pages, by one of the two callbacks. *)
Lemma getLinks_ok_inv links :
  snd (getLinks lib w) = Ok links ->
  exists els,
    Forall2 (fun p l => snd (primaryLink (fst p) (snd p)) = Ok l)
            (combine (seq 0 (length els)) els) links
    \/ Forall2 (fun p l => snd (fallbackLink (fst p) (snd p)) = Ok l)
               (combine (seq 0 (length els)) els) links.
Proof.
  intros H. unfold getLinks, try_catch in H.
  destruct (snd (extractDownloadLinks lib w)) as [lp|e|] eqn:Ep.
  - assert (lp = links) by congruence. subst lp.
    unfold extractDownloadLinks in Ep.
    apply bind_ok_inv in Ep. destruct Ep as (_ & _ & Ep).
    unfold try_catch in Ep.
    match type of Ep with
    | snd (match snd ?m with _ => _ end) = _ => destruct (snd m) eqn:Em
    end.
    + rewrite Em in Ep. inversion Ep; subst.
      apply bind_ok_inv in Em. destruct Em as (data & _ & Em).
      apply bind_ok_inv in Em. destruct Em as (ls & Hls & Em).
      apply bind_ok_inv in Em. destruct Em as (_ & _ & Em).
      apply bind_ok_inv in Em. destruct Em as (_ & _ & Em).
      inversion Em; subst.
      exists (cheerio_select lib data). left. now apply each_ok_inv.
    + cbn in Ep. discriminate Ep.
    + rewrite Em in Ep. discriminate Ep.
  - cbn [snd] in H.
    apply bind_ok_inv in H. destruct H as (_ & _ & H).
    apply bind_ok_inv in H. destruct H as (_ & _ & H).
    unfold fetchLinksWithCurl in H.
    apply bind_ok_inv in H. destruct H as (_ & _ & H).
    apply bind_ok_inv in H. destruct H as (_ & _ & H).
    destruct (exec_curl w) as [err|out].
    + apply bind_ok_inv in H. destruct H as (_ & _ & H). discriminate H.
    + unfold try_catch in H.
      match type of H with
      | snd (match snd ?m with _ => _ end) = _ => destruct (snd m) eqn:Em
      end.
      * rewrite Em in H. inversion H; subst.
        apply bind_ok_inv in Em. destruct Em as (ls & Hls & Em).
        apply bind_ok_inv in Em. destruct Em as (_ & _ & Em).
        inversion Em; subst.
        exists (cheerio_select lib out). right. now apply each_ok_inv.
      * cbn in H. discriminate H.
      * rewrite Em in H. discriminate H.
  - congruence.
Qed.

End Extraction.

Lemma fallbackLink_throw_inv i el e :
  snd (fallbackLink i el) = Throw e -> e = typeError (js "startsWith").
Proof.
  unfold fallbackLink, absoluteUrlOf. destruct (href el); cbn; congruence.
Qed.

Lemma each_primary_total els :
  Forall (fun el => href el <> None) els ->
  forall i, exists links, snd (each i els primaryLink) = Ok links.
Proof.
  intros Hall i.
  destruct (snd (each i els primaryLink)) as [links|e|] eqn:E; eauto.
  - apply each_throw_inv in E. destruct E as (j & el & Hin & Hj).
    rewrite Forall_forall in Hall. specialize (Hall el Hin).
    destruct (href el) as [u|] eqn:Hu; [|congruence].
    rewrite (primaryLink_priority j el _ Hu) in Hj. discriminate Hj.
  - now apply each_settles in E; [|apply primaryLink_settles].
Qed.

Lemma Forall2_same_left {A B} (P Q : A -> B -> Prop) (R : B -> B -> Prop) xs :
  (forall x b b', P x b -> Q x b' -> R b b') ->
  forall bs bs', Forall2 P xs bs -> Forall2 Q xs bs' -> Forall2 R bs bs'.
Proof.
  intros HR. induction xs as [|x xs IH]; intros bs bs' HP HQ;
    inversion HP; inversion HQ; subst; constructor; eauto.
Qed.

Lemma Forall2_Forall_r {A B} (P : A -> B -> Prop) (Q : B -> Prop) xs bs :
  Forall2 P xs bs -> (forall x b, P x b -> Q b) -> Forall Q bs.
Proof. intros F H. induction F; constructor; eauto. Qed.

Lemma origin_absolute u : isAbsoluteUrl (origin ++ u) = true.
Proof. reflexivity. Qed.

(** X1: one matched element without [href] makes link extraction fail as a
    whole, in either method: the primary method throws (and logs) a
    [TypeError] without writing [_links.json], and the backup method rejects
    with the [TypeError] of [startsWith]; no partial list of links is
    returned. *)
Theorem missing_href_fails_extraction
    (lib : Lib) (w : World) (html : jsstring) (el : Element) :
  In el (cheerio_select lib html) ->
  href el = None ->
  (axios_get w = inr html ->
   exists e,
     extractDownloadLinks lib w
     = ([ELog LInfo (MFetchingHtml CONFIG_url); EAxiosGet CONFIG_url;
         ELog LError (MErrorExtractingLinks (message e))], Throw e))
  /\ (exec_curl w = inr html ->
      fetchLinksWithCurl lib w
      = ([ELog LInfo MTryingCurl; EExecCurl curlCommand;
          ELog LError (MErrorParsingCurl
                         (message (typeError (js "startsWith"))))],
         Throw (typeError (js "startsWith")))).
Proof.
  intros Hin Hh. split; intros Hget.
  - destruct (each_throws_on primaryLink (cheerio_select lib html) el
                primaryLink_settles Hin) with (i := 0) as [e He].
    { intros i. apply (link_without_href i el Hh). }
    exists e. rewrite (extractDownloadLinks_fetched lib w html Hget), He.
    reflexivity.
  - destruct (each_throws_on fallbackLink (cheerio_select lib html) el
                fallbackLink_settles Hin) with (i := 0) as [e He].
    { intros i. exists (typeError (js "startsWith")).
      apply (link_without_href i el Hh). }
    rewrite (fetchLinksWithCurl_fetched lib w html Hget), He.
    destruct (each_throw_inv _ _ _ _ He) as (j & el' & _ & Hj).
    now rewrite (fallbackLink_throw_inv _ _ _ Hj).
Qed.

Lemma missing_href_fails_extraction_witness :
  (axios_get calmWorld = inr (js "<html>") ->
   exists e,
     extractDownloadLinks (libWith [anchor "/a.csv" "A"; bareAnchor]) calmWorld
     = ([ELog LInfo (MFetchingHtml CONFIG_url); EAxiosGet CONFIG_url;
         ELog LError (MErrorExtractingLinks (message e))], Throw e))
  /\ (exec_curl calmWorld = inr (js "<html>") ->
      fetchLinksWithCurl (libWith [anchor "/a.csv" "A"; bareAnchor]) calmWorld
      = ([ELog LInfo MTryingCurl; EExecCurl curlCommand;
          ELog LError (MErrorParsingCurl
                         (message (typeError (js "startsWith"))))],
         Throw (typeError (js "startsWith")))).
Proof.
  apply (missing_href_fails_extraction
           (libWith [anchor "/a.csv" "A"; bareAnchor]) calmWorld
           (js "<html>") bareAnchor);
    [right; left; reflexivity | reflexivity].
Defined.

(** X2: when every matched element has an [href] but [_links.json] cannot
    be written, the primary method throws the write error although it has
    the links; the backup method then runs ([curl] once), its outcome is the
    outcome of link extraction, and it never writes [_links.json]. *)
Theorem unsaved_links_trigger_fallback
    (lib : Lib) (w : World) (html : jsstring) (e : JsError) :
  axios_get w = inr html ->
  Forall (fun el => href el <> None) (cheerio_select lib html) ->
  write_links w = Some e ->
  snd (extractDownloadLinks lib w) = Throw e
  /\ snd (getLinks lib w) = snd (fetchLinksWithCurl lib w)
  /\ fallbackInvocations (fst (getLinks lib w)) = 1
  /\ Forall (fun ev => isWriteLinks ev = false)
            (fst (fetchLinksWithCurl lib w)).
Proof.
  intros Hget Hall Hw.
  destruct (each_primary_total _ Hall 0) as [links Hl].
  assert (Hp : snd (extractDownloadLinks lib w) = Throw e).
  { rewrite (extractDownloadLinks_fetched lib w html Hget), Hl, Hw.
    reflexivity. }
  split; [exact Hp|]. split; [|split].
  - now rewrite (getLinks_primary_throw lib w _ Hp).
  - unfold fallbackInvocations. now rewrite curl_runs_of_getLinks, Hp.
  - unfold fetchLinksWithCurl. quiet.
Qed.

Lemma unsaved_links_trigger_fallback_witness :
  snd (extractDownloadLinks (libWith twoAnchors) readOnlyWorld)
  = Throw (mkError (js "EROFS: read-only file system"))
  /\ snd (getLinks (libWith twoAnchors) readOnlyWorld)
     = snd (fetchLinksWithCurl (libWith twoAnchors) readOnlyWorld)
  /\ fallbackInvocations (fst (getLinks (libWith twoAnchors) readOnlyWorld))
     = 1
  /\ Forall (fun ev => isWriteLinks ev = false)
            (fst (fetchLinksWithCurl (libWith twoAnchors) readOnlyWorld)).
Proof.
  apply (unsaved_links_trigger_fallback (libWith twoAnchors) readOnlyWorld
           (js "<html>") (mkError (js "EROFS: read-only file system")));
    [reflexivity | repeat constructor; discriminate | reflexivity].
Defined.

(** X3: on the same page, the two methods return as many links as there
    are matched elements, with the same URLs in the same order; they can only
    differ in the file names. *)
Theorem methods_agree_on_urls
    (lib : Lib) (w : World) (html : jsstring) (lp lf : list Link) :
  axios_get w = inr html ->
  exec_curl w = inr html ->
  snd (extractDownloadLinks lib w) = Ok lp ->
  snd (fetchLinksWithCurl lib w) = Ok lf ->
  map url lp = map url lf
  /\ length lp = length (cheerio_select lib html)
  /\ length lf = length (cheerio_select lib html).
Proof.
  intros Hget Hcurl Hp Hf.
  rewrite (extractDownloadLinks_fetched lib w html Hget) in Hp.
  rewrite (fetchLinksWithCurl_fetched lib w html Hcurl) in Hf.
  destruct (snd (each 0 (cheerio_select lib html) primaryLink))
    as [lp'| |] eqn:Ep; try discriminate Hp.
  destruct (snd (each 0 (cheerio_select lib html) fallbackLink))
    as [lf'| |] eqn:Ef; try discriminate Hf.
  cbn [snd] in Hp, Hf. inversion Hf; subst lf'.
  assert (lp' = lp) by (destruct (write_links w); congruence). subst lp'.
  apply each_ok_inv in Ep. apply each_ok_inv in Ef.
  split; [|split].
  - assert (H : Forall2 (fun a b => url a = url b) lp lf).
    { eapply Forall2_same_left; [|exact Ep|exact Ef].
      intros [j el] a b Ha Hb.
      cbn [fst snd] in Ha, Hb.
      destruct (primaryLink_ok_inv _ _ _ Ha) as (u & Hu & Hua & _).
      destruct (fallbackLink_ok_inv _ _ _ Hb) as (u' & Hu' & Hub & _).
      assert (u' = u) by congruence. subst u'. congruence. }
    clear -H. induction H; cbn; congruence.
  - apply Forall2_length in Ep.
    rewrite length_combine, length_seq, Nat.min_id in Ep. now symmetry.
  - apply Forall2_length in Ef.
    rewrite length_combine, length_seq, Nat.min_id in Ef. now symmetry.
Qed.

Lemma methods_agree_on_urls_witness :
  map url [mkLink (origin ++ js "/cjenici/1.csv") (js "Cjenik 1");
           mkLink (origin ++ js "/cjenici/2.zip") (js "2.zip")]
  = map url [mkLink (origin ++ js "/cjenici/1.csv") (js "Cjenik 1");
             mkLink (origin ++ js "/cjenici/2.zip") (js "file-1.csv")]
  /\ length [mkLink (origin ++ js "/cjenici/1.csv") (js "Cjenik 1");
             mkLink (origin ++ js "/cjenici/2.zip") (js "2.zip")]
     = length (cheerio_select (libWith twoAnchors) (js "<html>"))
  /\ length [mkLink (origin ++ js "/cjenici/1.csv") (js "Cjenik 1");
             mkLink (origin ++ js "/cjenici/2.zip") (js "file-1.csv")]
     = length (cheerio_select (libWith twoAnchors) (js "<html>")).
Proof.
  apply (methods_agree_on_urls (libWith twoAnchors) calmWorld (js "<html>"));
    reflexivity.
Defined.

(** X4: every link that link extraction returns, by whichever method, has a
    non-empty file name and a URL that does not start with a slash. *)
Theorem extracted_links_wellformed
    (lib : Lib) (w : World) (links : list Link) :
  snd (getLinks lib w) = Ok links ->
  Forall (fun l => filename l <> [] /\ startsWithSlash (url l) = false) links.
Proof.
  intros H. destruct (getLinks_ok_inv lib w _ H) as [els [F|F]].
  - apply (Forall2_Forall_r _ _ _ _ F). intros [j el] l Hl.
    destruct (primaryLink_ok_inv _ _ _ Hl) as (u & _ & Hu & Hf).
    split; [exact Hf|]. rewrite Hu.
    destruct (startsWithSlash u) eqn:E; [reflexivity | exact E].
  - apply (Forall2_Forall_r _ _ _ _ F). intros [j el] l Hl.
    destruct (fallbackLink_ok_inv _ _ _ Hl) as (u & _ & Hu & Hf).
    split; [exact Hf|]. rewrite Hu.
    destruct (startsWithSlash u) eqn:E; [reflexivity | exact E].
Qed.

Lemma extracted_links_wellformed_witness :
  Forall (fun l => filename l <> [] /\ startsWithSlash (url l) = false)
    [mkLink (origin ++ js "/cjenici/1.csv") (js "Cjenik 1");
     mkLink (origin ++ js "/cjenici/2.zip") (js "2.zip")].
Proof.
  apply (extracted_links_wellformed (libWith twoAnchors) calmWorld).
  reflexivity.
Defined.

(** X5: the URL of an extracted link is the [href] itself, or the origin of
    the page followed by the [href] when the [href] starts with a slash; so
    it is absolute exactly when the [href] starts with a slash or is
    absolute already. *)
Theorem extracted_url_absolute_iff (i : nat) (el : Element) (l : Link) :
  snd (primaryLink i el) = Ok l \/ snd (fallbackLink i el) = Ok l ->
  exists u,
    href el = Some u
    /\ url l = (if startsWithSlash u then origin ++ u else u)
    /\ isAbsoluteUrl (url l) = startsWithSlash u || isAbsoluteUrl u.
Proof.
  intros H.
  assert (Hu : exists u, href el = Some u
                 /\ url l = (if startsWithSlash u then origin ++ u else u)).
  { destruct H as [H|H];
      [destruct (primaryLink_ok_inv _ _ _ H) as (u & ? & ? & _)
      |destruct (fallbackLink_ok_inv _ _ _ H) as (u & ? & ? & _)]; eauto. }
  destruct Hu as (u & Hh & Hu). exists u. repeat split; auto.
  rewrite Hu. destruct (startsWithSlash u) eqn:E.
  - now rewrite origin_absolute.
  - reflexivity.
Qed.

Lemma extracted_url_absolute_iff_witness :
  exists u,
    href (anchor "/cjenici/1.csv" "Cjenik 1") = Some u
    /\ url (mkLink (origin ++ js "/cjenici/1.csv") (js "Cjenik 1"))
       = (if startsWithSlash u then origin ++ u else u)
    /\ isAbsoluteUrl (url (mkLink (origin ++ js "/cjenici/1.csv")
                                  (js "Cjenik 1")))
       = startsWithSlash u || isAbsoluteUrl u.
Proof.
  apply (extracted_url_absolute_iff 0 (anchor "/cjenici/1.csv" "Cjenik 1")).
  left. reflexivity.
Defined.

(** X6: for an element with an [href], the primary method names the file
    by the first non-empty of the [download] attribute, the trimmed text and
    the last segment of the [href], else [file-<i>.csv]; the version of the
    script that reads the page in a browser uses the same order on the
    resolved [href], with [Date.now()] in the generated name. *)
Theorem filename_priority_in_both_versions
    (i : nat) (el : Element) (u : jsstring) :
  href el = Some u ->
  (exists l, snd (primaryLink i el) = Ok l
             /\ filename l
                = firstNonEmpty [orElse (download el) []; trim (text el);
                                 lastSegment u]
                                (placeholder i))
  /\ (forall resolved dateNow,
        filename (browserLink resolved dateNow el)
        = firstNonEmpty [orElse (download el) []; trim (text el);
                         lastSegment resolved]
                        (js "file-" ++ showNat dateNow ++ js ".csv")).
Proof.
  intros Hu. split.
  - eexists. split; [apply (primaryLink_priority i el _ Hu)|]. reflexivity.
  - intros resolved dateNow. apply browserLink_priority.
Qed.

Lemma filename_priority_in_both_versions_witness :
  (exists l, snd (primaryLink 1 (anchor "/cjenici/2.zip" "")) = Ok l
             /\ filename l
                = firstNonEmpty [orElse None []; trim (js "");
                                 lastSegment (js "/cjenici/2.zip")]
                                (placeholder 1))
  /\ (forall resolved dateNow,
        filename (browserLink resolved dateNow (anchor "/cjenici/2.zip" ""))
        = firstNonEmpty [orElse None []; trim (js "");
                         lastSegment resolved]
                        (js "file-" ++ showNat dateNow ++ js ".csv")).
Proof.
  apply (filename_priority_in_both_versions 1 (anchor "/cjenici/2.zip" "")
           (js "/cjenici/2.zip")).
  reflexivity.
Defined.

(* ================================================================== *)
(** ** Names on disk *)
(* ================================================================== *)

Lemma sanitize_fixed x :
  Forall (fun c => inClass c = true \/ c = underscore) x -> sanitize x = x.
Proof.
  induction 1 as [|c x Hc _ IH]; [reflexivity|].
  cbn [sanitize map]. fold (sanitize x). rewrite IH. f_equal.
  destruct Hc as [Hc| ->]; [now rewrite Hc | reflexivity].
Qed.

Lemma inClass_not_separator c :
  inClass c = true -> c <> 47%N /\ c <> 92%N.
Proof. intros H. split; intros ->; discriminate H. Qed.

(** X7: the sanitized name has the length of the given name and contains
    neither a slash nor a backslash; the names that sanitization leaves
    unchanged are those made of [A-Za-z0-9.-] and underscores only.  Dots
    are kept, so the names [.] and [..] are among them. *)
Theorem sanitize_safe_names (x : jsstring) :
  length (sanitize x) = length x
  /\ Forall (fun c => c <> 47%N /\ c <> 92%N) (sanitize x)
  /\ (sanitize x = x <->
      Forall (fun c => inClass c = true \/ c = underscore) x)
  /\ sanitize (js ".") = js "."
  /\ sanitize (js "..") = js "..".
Proof.
  split; [apply length_map|].
  split; [|split; [split | split; reflexivity]].
  - unfold sanitize. rewrite Forall_map, Forall_forall. intros c _.
    destruct (inClass c) eqn:E.
    + now apply inClass_not_separator.
    + split; discriminate.
  - induction x as [|c x IH]; intros H; constructor.
    + cbn [sanitize map] in H. injection H as Hc Hx.
      destruct (inClass c) eqn:E; [now left | right; congruence].
    + apply IH. cbn [sanitize map] in H. now injection H as Hc Hx.
  - apply sanitize_fixed.
Qed.

Lemma js_injective a b : js a = js b -> a = b.
Proof.
  unfold js. intros H.
  rewrite <- (string_of_list_ascii_of_string a),
          <- (string_of_list_ascii_of_string b).
  f_equal. revert H.
  generalize (list_ascii_of_string a) (list_ascii_of_string b).
  induction l as [|x l IH]; intros [|y l']; cbn; try discriminate; auto.
  intros H. inversion H as [[Hx Hl]]. f_equal; [|now apply IH].
  transitivity (ascii_of_N (N_of_ascii x));
    [symmetry; apply ascii_N_embedding|].
  rewrite Hx. apply ascii_N_embedding.
Qed.

Lemma showNat_injective n m : showNat n = showNat m -> n = m.
Proof.
  unfold showNat. intros H. apply js_injective in H.
  assert (E : Some (Nat.to_uint n) = Some (Nat.to_uint m))
    by (rewrite <- !NilEmpty.usu; now f_equal).
  inversion E as [E'].
  rewrite <- (DecimalNat.Unsigned.of_to n), <- (DecimalNat.Unsigned.of_to m).
  now f_equal.
Qed.

Lemma digits_inClass d :
  Forall (fun c => inClass c = true) (js (NilEmpty.string_of_uint d)).
Proof. induction d; cbn; constructor; auto. Qed.

Lemma placeholder_inClass i :
  Forall (fun c => inClass c = true \/ c = underscore) (placeholder i).
Proof.
  unfold placeholder. repeat (apply Forall_app; split).
  - repeat constructor.
  - unfold showNat. eapply Forall_impl; [|apply digits_inClass].
    intros c Hc. now left.
  - repeat constructor.
Qed.

(** X8: the generated names [file-<i>.csv] pass sanitization unchanged, and
    those of different elements differ: two links that both got a generated
    name are written to different files. *)
Theorem placeholders_distinct_on_disk (i j : nat) :
  sanitize (placeholder i) = placeholder i
  /\ (i <> j -> sanitize (placeholder i) <> sanitize (placeholder j)).
Proof.
  split; [apply sanitize_fixed, placeholder_inClass|].
  intros Hne H.
  rewrite !sanitize_fixed in H by apply placeholder_inClass.
  unfold placeholder in H. apply app_inv_head in H.
  apply app_inv_tail in H. now apply showNat_injective in H.
Qed.


(* ================================================================== *)
(** ** The run as a whole *)
(* ================================================================== *)


Section Run.

Variable lib : Lib.
Variable w : World.







Lemma main_eq :
  main lib w
  = (ELog LInfo MStarting
     :: fst (mainTry lib w)
     ++ match snd (mainTry lib w) with
        | Throw e => [ELog LError (MJobFailed (message e))]
        | _ => []
        end,
     match snd (mainTry lib w) with
     | Diverge => Diverge
     | _ => Ok tt
     end).
Proof.
  unfold main, log, emit. rewrite bind_pair. cbn [fst snd app].
  unfold try_catch.
  destruct (snd (mainTry lib w)) as [[]| |] eqn:E;
    cbn [fst snd]; rewrite ?E, ?app_nil_r; reflexivity.
Qed.


End Run.



(** The page lists two files and the body of the second breaks off: the
    first file settles, and nothing follows. *)
Example stalled_main :
  let run := main (libWith twoAnchors) stallingWorld in
  snd run = Diverge
  /\ last (fst run) (ELog LInfo MStarting)
     = ESettled 1 true.
Proof. vm_compute. split; reflexivity. Qed.

(** X10: when link extraction returns no link, the run ends with the
    warning "No download links found" and does nothing else: no download is
    requested and no metadata is written. *)
Theorem main_without_links (lib : Lib) (w : World) :
  snd (setupDirectories lib w) = Ok tt ->
  snd (getLinks lib w) = Ok [] ->
  main lib w
  = (ELog LInfo MStarting
     :: fst (setupDirectories lib w) ++ fst (getLinks lib w)
     ++ [ELog LWarn MNoLinks], Ok tt)
  /\ downloadsStarted (fst (main lib w)) = 0
  /\ Forall (fun e => isMetadataWrite e = false) (fst (main lib w)).
Proof.
  intros Hs Hg.
  assert (Ht : mainTry lib w
               = (fst (setupDirectories lib w) ++ fst (getLinks lib w)
                  ++ [ELog LWarn MNoLinks], Ok tt)).
  { unfold mainTry. rewrite (bind_ok _ Hs), (bind_ok _ Hg). reflexivity. }
  assert (Hm : main lib w
               = (ELog LInfo MStarting
                  :: fst (setupDirectories lib w) ++ fst (getLinks lib w)
                  ++ [ELog LWarn MNoLinks], Ok tt)).
  { rewrite main_eq, Ht. cbn [fst snd]. now rewrite app_nil_r. }
  split; [exact Hm|]. rewrite Hm. cbn [fst]. split.
  - unfold downloadsStarted.
    match goal with
    | |- length (filter isRequest ?t) = 0 =>
        assert (HF : Forall notRequest t)
    end.
    { constructor; [reflexivity|].
      apply Forall_app. split; [apply setupDirectories_no_request|].
      apply Forall_app. split; [|repeat constructor].
      unfold getLinks. quiet. }
    now rewrite (filter_none isRequest HF).
  - constructor; [reflexivity|].
    apply Forall_app. split; [unfold setupDirectories; quiet|].
    apply Forall_app. split; [|repeat constructor].
    unfold getLinks, extractDownloadLinks, fetchLinksWithCurl. quiet.
Qed.

Lemma main_without_links_witness :
  main (libWith []) calmWorld
  = (ELog LInfo MStarting
     :: fst (setupDirectories (libWith []) calmWorld)
     ++ fst (getLinks (libWith []) calmWorld)
     ++ [ELog LWarn MNoLinks], Ok tt)
  /\ downloadsStarted (fst (main (libWith []) calmWorld)) = 0
  /\ Forall (fun e => isMetadataWrite e = false)
            (fst (main (libWith []) calmWorld)).
Proof.
  apply (main_without_links (libWith []) calmWorld); reflexivity.
Defined.

(** X11: when a directory cannot be created, the run ends with "Job failed"
    and the message of that error before anything goes to the network: no
    page is fetched, [curl] is not run, no download is requested. *)
Theorem setup_failure_aborts_offline (lib : Lib) (w : World) (e : JsError) :
  snd (setupDirectories lib w) = Throw e ->
  main lib w
  = (ELog LInfo MStarting
     :: fst (setupDirectories lib w)
     ++ [ELog LError (MJobFailed (message e))], Ok tt)
  /\ Forall (fun ev => isNetwork ev = false) (fst (main lib w)).
Proof.
  intros Hs.
  assert (Ht : mainTry lib w = (fst (setupDirectories lib w), Throw e)).
  { unfold mainTry. now rewrite (bind_throw _ Hs). }
  assert (Hm : main lib w
               = (ELog LInfo MStarting
                  :: fst (setupDirectories lib w)
                  ++ [ELog LError (MJobFailed (message e))], Ok tt)).
  { rewrite main_eq, Ht. reflexivity. }
  split; [exact Hm|]. rewrite Hm. cbn [fst].
  constructor; [reflexivity|].
  apply Forall_app. split; [unfold setupDirectories; quiet|].
  repeat constructor.
Qed.

Lemma setup_failure_aborts_offline_witness :
  main (libWith twoAnchors) noDiskWorld
  = (ELog LInfo MStarting
     :: fst (setupDirectories (libWith twoAnchors) noDiskWorld)
     ++ [ELog LError (MJobFailed (js "EACCES: permission denied"))], Ok tt)
  /\ Forall (fun ev => isNetwork ev = false)
            (fst (main (libWith twoAnchors) noDiskWorld)).
Proof.
  apply (setup_failure_aborts_offline (libWith twoAnchors) noDiskWorld
           (mkError (js "EACCES: permission denied"))).
  reflexivity.
Defined.



(* ================================================================== *)
(** ** The batches of a run *)
(* ================================================================== *)

Section BatchFacts.

Variable lib : Lib.
Variable w : World.

Lemma withinLimit_app limit a b :
  withinLimit limit a ->
  (forall l q, b = l ++ q ->
     length (settledIndices a) + length (settledIndices l)
     <= length (requestedIndices a) + length (requestedIndices l)
     /\ length (requestedIndices a) + length (requestedIndices l)
        <= length (settledIndices a) + length (settledIndices l) + limit) ->
  withinLimit limit (a ++ b).
Proof.
  intros Ha Hb p q Heq. symmetry in Heq. apply app_eq_app in Heq.
  destruct Heq as [l [[-> ->]|[-> ->]]].
  - rewrite settledIndices_app, requestedIndices_app, !length_app.
    now apply (Hb l q).
  - now apply (Ha p l).
Qed.

Lemma prefix_counts (t p q : list Event) :
  t = p ++ q ->
  length (settledIndices p) <= length (settledIndices t)
  /\ length (requestedIndices p) <= length (requestedIndices t).
Proof.
  intros ->. rewrite settledIndices_app, requestedIndices_app, !length_app.
  lia.
Qed.

Lemma batchLoop_withinLimit links size (size_pos : 0 < size) fuel :
  forall i results,
    length links - i <= fuel ->
    withinLimit size (fst (batchLoop lib w size fuel i links results)).
Proof.
  induction fuel as [|fuel IH]; intros i results Hfuel.
  { rewrite batchLoop_done by lia. intros [|e p] q H; [cbn; lia|].
    discriminate H. }
  destruct (Nat.le_gt_cases (length links) i) as [Hge|Hlt].
  { rewrite batchLoop_done by lia. intros [|e p] q H; [cbn; lia|].
    discriminate H. }
  destruct (batch_split links size size_pos i Hlt) as (_ & _ & _ & Hb2 & _).
  destruct (batchLoop_unfold lib w links size size_pos fuel i results Hlt)
    as (HqS & Hord & Hperm & ->).
  set (batch := firstn size (skipn i links)) in *.
  set (ps := number i batch) in *.
  set (order := settleOrder w (2 * length ps) ps [] (completion w i)) in *.
  set (tS := fst (settleAll lib w (2 * length ps) ps [] [] (completion w i)
                    results)) in *.
  set (hd := ELog LInfo (MProcessingBatch (i / size + 1) (length batch))).
  destruct (requestsOf_indices lib w ps) as [Hr1 Hr2].
  assert (Hn : length ps = length batch) by apply number_length.
  assert (HRreq : length (requestedIndices (requestsOf lib w ps))
                  = length batch) by now rewrite Hr1, length_map.
  assert (HSle : length (settledIndices tS) <= length batch).
  { rewrite Hord, length_map, (Permutation_length Hperm), <- Hn.
    apply filter_length_le. }
  assert (HRts : requestedIndices tS = []) by now apply requestedIndices_none.
  (* the batch alone *)
  assert (Hbatch : withinLimit size (([hd] ++ requestsOf lib w ps) ++ tS)).
  { apply withinLimit_app.
    + intros p q H. destruct (prefix_counts _ p q H) as [H1 H2].
      rewrite settledIndices_app, length_app, Hr2 in H1.
      rewrite requestedIndices_app, length_app, HRreq in H2.
      cbn in H1, H2. lia.
    + intros l q H. destruct (prefix_counts _ l q H) as [H1 H2].
      rewrite HRts in H2.
      rewrite !settledIndices_app, !requestedIndices_app, !length_app, Hr2,
        HRreq.
      cbn. cbn in H2. lia. }
  destruct (forallb (settles lib w) ps) eqn:Hall; cbn [fst].
  - assert (HSts : length (settledIndices tS) = length batch).
    { rewrite Hord, length_map, (Permutation_length Hperm).
      now rewrite (forallb_filter_id _ _ Hall). }
    change (hd :: requestsOf lib w ps ++ tS
            ++ fst (batchLoop lib w size fuel (i + size) links
                      (settled lib w results order)))
      with ([hd] ++ requestsOf lib w ps ++ tS
            ++ fst (batchLoop lib w size fuel (i + size) links
                      (settled lib w results order))).
    rewrite !app_assoc. apply withinLimit_app; [exact Hbatch|].
    intros l q H.
    destruct (IH (i + size) (settled lib w results order) ltac:(lia) l q H)
      as [H1 H2].
    rewrite !settledIndices_app, !requestedIndices_app, !length_app, Hr2,
      HRreq, HSts, HRts.
    cbn. lia.
  - exact Hbatch.
Qed.

Lemma batchLogs_app a b : batchLogs (a ++ b) = batchLogs a ++ batchLogs b.
Proof. apply flat_map_app. Qed.

Lemma batchLogs_none t :
  Forall (fun e => isBatchLog e = false) t -> batchLogs t = [].
Proof.
  induction 1 as [|e t He _ IH]; [reflexivity|].
  unfold batchLogs in *. cbn [flat_map]. rewrite IH.
  destruct e as [[] []| | | | | | | | | | |]; try reflexivity; discriminate He.
Qed.

Lemma settleAll_no_batch_log n waiting writing stuck choices results :
  Forall (fun e => isBatchLog e = false)
         (fst (settleAll lib w n waiting writing stuck choices results)).
Proof.
  apply settleAll_Forall; intros.
  - unfold respond, downloadFile_response, onRejected. quiet.
  - unfold finish, downloadFile_writer, onFulfilled, onRejected. quiet.
Qed.

Lemma requestsOf_no_batch_log ps :
  Forall (fun e => isBatchLog e = false) (requestsOf lib w ps).
Proof.
  unfold requestsOf. induction ps; cbn [flat_map app]; repeat constructor.
  exact IHps.
Qed.

(** The lines of the batches from batch [k] on, for [n] links. *)
Lemma batch_lines_unfold n size k :
  0 < size -> k * size < n ->
  map (fun j => (j + 1, Nat.min size (n - size * j)))
      (seq k ((n - k * size + size - 1) / size))
  = (k + 1, Nat.min size (n - k * size))
    :: map (fun j => (j + 1, Nat.min size (n - size * j)))
           (seq (S k) ((n - S k * size + size - 1) / size)).
Proof.
  intros size_pos Hlt.
  set (a := n - k * size).
  assert (Ha : 0 < a) by (unfold a; lia).
  replace (a + size - 1) with ((a - 1) + 1 * size) by lia.
  rewrite Nat.div_add by lia.
  rewrite (Nat.add_1_r ((a - 1) / size)). cbn [seq map].
  f_equal.
  - assert (E : n - size * k = a)
      by (unfold a; now rewrite (Nat.mul_comm size k)).
    now rewrite E.
  - f_equal. f_equal.
    destruct (Nat.le_gt_cases size a) as [Hle|Hgt].
    + f_equal. unfold a in *. cbn. lia.
    + unfold a in *. rewrite !Nat.div_small; [reflexivity | lia | cbn; lia].
Qed.

(** The header lines of the batches from offset [k * size] on: those of all
    batches when every download settles, and of the first ones in every
    case. *)
Lemma batchLoop_batchLogs links size (size_pos : 0 < size) fuel :
  forall k results,
    length links - k * size <= fuel ->
    exists later,
      map (fun j => (j + 1, Nat.min size (length links - size * j)))
          (seq k ((length links - k * size + size - 1) / size))
      = batchLogs (fst (batchLoop lib w size fuel (k * size) links results))
        ++ later
      /\ (forallb (settles lib w)
                  (number (k * size) (skipn (k * size) links)) = true ->
          later = []).
Proof.
  assert (Hdone : forall fuel k results, length links <= k * size ->
    exists later,
      map (fun j => (j + 1, Nat.min size (length links - size * j)))
          (seq k ((length links - k * size + size - 1) / size))
      = batchLogs (fst (batchLoop lib w size fuel (k * size) links results))
        ++ later
      /\ (forallb (settles lib w)
                  (number (k * size) (skipn (k * size) links)) = true ->
          later = [])).
  { intros f k results Hk. exists []. rewrite batchLoop_done by lia.
    replace (length links - k * size) with 0 by lia.
    rewrite Nat.div_small by lia. split; reflexivity. }
  induction fuel as [|fuel IH]; intros k results Hfuel.
  { apply Hdone. lia. }
  destruct (Nat.le_gt_cases (length links) (k * size)) as [Hge|Hlt];
    [now apply Hdone|].
  destruct (batch_split links size size_pos (k * size) Hlt) as (_ & Hnum & _).
  destruct (batchLoop_unfold lib w links size size_pos fuel (k * size)
              results Hlt) as (_ & _ & _ & ->).
  rewrite (batch_lines_unfold (length links) size k size_pos Hlt).
  rewrite Hnum, forallb_app.
  replace (k * size + size) with (S k * size) by (cbn; lia).
  set (ps := number (k * size) (firstn size (skipn (k * size) links))).
  assert (Hhd : forall t,
    batchLogs (ELog LInfo (MProcessingBatch (k * size / size + 1)
                             (length (firstn size (skipn (k * size) links))))
               :: requestsOf lib w ps
               ++ fst (settleAll lib w (2 * length ps) ps [] []
                         (completion w (k * size)) results) ++ t)
    = (k + 1, Nat.min size (length links - k * size)) :: batchLogs t).
  { intros t.
    change (ELog LInfo ?m :: ?r) with ([ELog LInfo m] ++ r).
    rewrite !batchLogs_app,
      (batchLogs_none _ (settleAll_no_batch_log _ _ _ _ _ _)),
      (batchLogs_none _ (requestsOf_no_batch_log _)).
    cbn [batchLogs flat_map app].
    now rewrite Nat.div_mul, length_firstn, length_skipn by lia. }
  destruct (forallb (settles lib w) ps); cbn [fst andb].
  - destruct (IH (S k) (settled lib w results
                          (settleOrder w (2 * length ps) ps []
                             (completion w (k * size)))))
      as (later & Heq & Hnil); [cbn; lia|].
    exists later. rewrite Hhd, Heq. split; [reflexivity | exact Hnil].
  - eexists. split; [|discriminate].
    rewrite <- (app_nil_r (fst (settleAll _ _ _ _ _ _ _ _))), Hhd.
    reflexivity.
Qed.

End BatchFacts.

(** X13: at every moment of [downloadAllFiles], at most
    [maxConcurrentDownloads] (5) downloads are requested and not yet
    settled, for every list of links, every outcome and every completion
    order. *)
Theorem downloads_in_flight_bounded
    (lib : Lib) (w : World) (links : list Link) :
  withinLimit CONFIG_maxConcurrentDownloads
              (fst (downloadAllFiles lib w links)).
Proof.
  pose proof (@batchLoop_withinLimit lib w links CONFIG_maxConcurrentDownloads
                (Nat.lt_0_succ _) (length links) 0
                {| success := []; failed := [] |} ltac:(lia)) as H.
  rewrite downloadAllFiles_eq.
  destruct (forallb (settles lib w) (number 0 links)); cbn [fst];
    [|exact H].
  apply withinLimit_app; [exact H|].
  intros l q Hl.
  assert (Hz : settledIndices l = [] /\ requestedIndices l = []).
  { destruct l as [|e l]; [split; reflexivity|].
    injection Hl as He Hl'. symmetry in Hl'. apply app_eq_nil in Hl'.
    destruct Hl' as [-> _]. subst e. split; reflexivity. }
  destruct Hz as [-> ->].
  destruct (H _ [] (eq_sym (app_nil_r _))) as [H1 H2].
  cbn [length]. lia.
Qed.

(** X14: when it returns, [downloadAllFiles] has announced [ceil(N / 5)]
    batches, numbered from 1; batch [k] has 5 downloads, except the last one
    which has what is left of the [N] links.  In every run, also one that
    stops at a batch that never ends, the batches announced are the first
    of these. *)
Theorem batches_announced (lib : Lib) (w : World) (links : list Link) :
  (forall r,
      snd (downloadAllFiles lib w links) = Ok r ->
      batchLogs (fst (downloadAllFiles lib w links))
      = map (fun j => (j + 1, Nat.min 5 (length links - 5 * j)))
            (seq 0 ((length links + 4) / 5)))
  /\ exists later,
       map (fun j => (j + 1, Nat.min 5 (length links - 5 * j)))
           (seq 0 ((length links + 4) / 5))
       = batchLogs (fst (downloadAllFiles lib w links)) ++ later.
Proof.
  destruct (@batchLoop_batchLogs lib w links CONFIG_maxConcurrentDownloads
              (Nat.lt_0_succ _) (length links) 0
              {| success := []; failed := [] |} ltac:(cbn; lia))
    as (later & H & Hnil).
  change (0 * CONFIG_maxConcurrentDownloads) with 0 in H, Hnil.
  rewrite Nat.sub_0_r in H. cbn [skipn] in Hnil.
  replace (length links + CONFIG_maxConcurrentDownloads - 1)
    with (length links + 4) in H by (unfold CONFIG_maxConcurrentDownloads; lia).
  assert (Hlogs : batchLogs (fst (downloadAllFiles lib w links))
                  = batchLogs (fst (batchLoop lib w
                                      CONFIG_maxConcurrentDownloads
                                      (length links) 0 links
                                      {| success := []; failed := [] |}))).
  { rewrite downloadAllFiles_eq.
    destruct (forallb (settles lib w) (number 0 links)); cbn [fst];
      [|reflexivity].
    rewrite batchLogs_app. cbn. now rewrite app_nil_r. }
  rewrite <- Hlogs in H. unfold CONFIG_maxConcurrentDownloads in H.
  split.
  - intros r Hr.
    destruct (downloadAllFiles_returns lib w links r Hr) as [Hall _].
    rewrite H, (Hnil Hall). now rewrite app_nil_r.
  - exists later. exact H.
Qed.

Lemma batches_announced_witness :
  batchLogs (fst (downloadAllFiles (libWith []) flakyWorld sevenLinks))
  = map (fun j => (j + 1, Nat.min 5 (length sevenLinks - 5 * j)))
        (seq 0 ((length sevenLinks + 4) / 5)).
Proof.
  apply (proj1 (batches_announced (libWith []) flakyWorld sevenLinks)
           flakyResults).
  reflexivity.
Defined.

Example batches_of_seven :
  batchLogs (fst (downloadAllFiles (libWith []) flakyWorld sevenLinks))
  = [(1, 5); (2, 2)]
  /\ batchLogs (fst (downloadAllFiles (libWith []) stallingWorld sevenLinks))
     = [(1, 5)].
Proof. vm_compute. split; reflexivity. Qed.

(* ================================================================== *)
(** ** The log lines of the downloads *)
(* ================================================================== *)

Section Counting.

Variable lib : Lib.
Variable w : World.

Lemma list_sum_perm l l' : Permutation l l' -> list_sum l = list_sum l'.
Proof. unfold list_sum. induction 1; cbn; lia. Qed.

Variable f : Event -> bool.
Variables g1 g2 : nat * Link -> nat.
Hypothesis count_respond :
  forall r p, length (filter f (fst (respond lib w r p))) = g1 p.
Hypothesis count_finish :
  forall r p, length (filter f (fst (finish lib w r p))) = g2 p.

(** The events of one kind in a batch: those of the answer to each request,
    and those of the end of each write stream that ends. *)
Lemma count_settleAll n : forall waiting writing stuck choices results,
  2 * length waiting + length writing <= n ->
  Forall (fun p => streams w p = true) writing ->
  length (filter f (fst (settleAll lib w n waiting writing stuck choices
                           results)))
  = list_sum (map (fun p => g1 p + if streams w p then g2 p else 0) waiting)
    + list_sum (map g2 writing).
Proof.
  induction n as [|n IH]; intros waiting writing stuck choices results Hn Hw.
  { destruct waiting; [|cbn in Hn; lia]. destruct writing; [|cbn in Hn; lia].
    cbn. destruct stuck; reflexivity. }
  destruct (waiting ++ writing) as [|first rest] eqn:Hww.
  { apply app_eq_nil in Hww. destruct Hww as [-> ->].
    cbn. destruct stuck; reflexivity. }
  cbn [settleAll]. rewrite Hww.
  set (k := hd 0 choices mod length (first :: rest)).
  assert (Hk : k < length waiting + length writing).
  { rewrite <- length_app, Hww. apply Nat.mod_upper_bound. discriminate. }
  destruct (k <? length waiting) eqn:Hlt.
  - apply Nat.ltb_lt in Hlt.
    set (entry := nth k waiting first).
    pose proof (removeAt_perm first k waiting Hlt) as Hperm.
    fold entry in Hperm.
    pose proof (removeAt_length k waiting Hlt) as Hlen.
    rewrite (list_sum_perm _ _ (Permutation_map _ Hperm)).
    cbn [map]. change (list_sum (?x :: ?l)) with (x + list_sum l).
    pose proof (respond_eq lib w results entry) as Hre.
    unfold streams, requestFails.
    destruct (axios_stream w (fst entry) (snd entry)) as [e|] eqn:Hax.
    + assert (Hs : snd (respond lib w results entry)
                   = Ok (Some (pushFailed results (snd entry) e)))
        by now rewrite Hre.
      rewrite (bind_ok _ Hs). cbn [fst negb andb].
      rewrite filter_app, length_app, count_respond, IH by (lia || exact Hw).
      unfold streams, requestFails. lia.
    + assert (Hs : snd (respond lib w results entry) = Ok None)
        by now rewrite Hre.
      rewrite (bind_ok _ Hs). cbn [fst negb andb].
      destruct (neverCloses w entry) eqn:Hnc; cbn [negb].
      * rewrite filter_app, length_app, count_respond, IH
          by (lia || exact Hw).
        unfold streams, requestFails. lia.
      * rewrite filter_app, length_app, count_respond, IH.
        -- rewrite map_app, list_sum_app. unfold streams, requestFails.
           cbn [map]. change (list_sum [?x]) with (x + 0). lia.
        -- rewrite length_app. cbn [length]. lia.
        -- apply Forall_app. split; [exact Hw|]. constructor; [|constructor].
           unfold streams, requestFails. now rewrite Hax, Hnc.
  - apply Nat.ltb_ge in Hlt.
    set (j := k - length waiting).
    assert (Hj : j < length writing) by (unfold j; lia).
    set (entry := nth j writing first).
    pose proof (removeAt_perm first j writing Hj) as Hperm.
    fold entry in Hperm.
    pose proof (removeAt_length j writing Hj) as Hlen.
    assert (Hw' : Forall (fun p => streams w p = true)
                         (entry :: removeAt j writing))
      by (rewrite <- Hperm; exact Hw).
    apply Forall_cons_iff in Hw'. destruct Hw' as [He Hw'].
    rewrite (list_sum_perm _ _ (Permutation_map g2 Hperm)).
    cbn [map]. change (list_sum (?x :: ?l)) with (x + list_sum l).
    assert (Hs : exists r', snd (finish lib w results entry) = Ok r').
    { rewrite finish_eq. unfold streams, neverCloses in He.
      destruct (write_stream w (fst entry) (snd entry)); cbn [snd]; eauto.
      destruct (requestFails w entry); discriminate He. }
    destruct Hs as [r' Hs]. rewrite (bind_ok _ Hs). cbn [fst].
    rewrite filter_app, length_app, count_finish, IH by (lia || exact Hw').
    lia.
Qed.

Hypothesis count_batch_line :
  forall k n, f (ELog LInfo (MProcessingBatch k n)) = false.
Hypothesis count_requests :
  forall ps, filter f (requestsOf lib w ps) = [].

Lemma count_batchLoop links size (size_pos : 0 < size) fuel :
  forall i results,
    length links - i <= fuel ->
    forallb (settles lib w) (number i (skipn i links)) = true ->
    length (filter f (fst (batchLoop lib w size fuel i links results)))
    = list_sum (map (fun p => g1 p + if streams w p then g2 p else 0)
                    (number i (skipn i links))).
Proof.
  induction fuel as [|fuel IH]; intros i results Hfuel Hall.
  { rewrite batchLoop_done, skipn_all2 by lia. reflexivity. }
  destruct (Nat.le_gt_cases (length links) i) as [Hge|Hlt].
  { rewrite batchLoop_done, skipn_all2 by lia. reflexivity. }
  destruct (batch_split links size size_pos i Hlt) as (_ & Hnum & _).
  destruct (batchLoop_unfold lib w links size size_pos fuel i results Hlt)
    as (_ & _ & _ & ->).
  rewrite Hnum, forallb_app in Hall. apply andb_prop in Hall.
  destruct Hall as [Hall1 Hall2]. rewrite Hall1. cbn [fst filter].
  rewrite count_batch_line.
  rewrite !filter_app, !length_app, count_requests, count_settleAll, IH
    by (cbn [length]; lia || exact Hall2 || constructor).
  rewrite Hnum, map_app, list_sum_app. cbn. lia.
Qed.

End Counting.

Section LogLines.

Variable lib : Lib.
Variable w : World.

Lemma sum_of_flags {A} (g : A -> nat) (h : A -> bool) l :
  (forall x, g x = if h x then 1 else 0) ->
  list_sum (map g l) = length (filter h l).
Proof.
  intros Hg. induction l as [|x l IH]; [reflexivity|]. unfold list_sum in *.
  cbn [map fold_right filter]. rewrite IH, Hg. destruct (h x); reflexivity.
Qed.

Lemma length_resolvedEntries ps :
  length (resolvedEntries lib w ps)
  = length (filter (fun p => negb (requestFails w p)
                             && match write_stream w (fst p) (snd p) with
                                | WClose => true
                                | _ => false
                                end) ps).
Proof.
  induction ps as [|p ps IH]; [reflexivity|].
  change (p :: ps) with ([p] ++ ps). unfold resolvedEntries in *.
  rewrite flat_map_app, filter_app, !length_app, IH. f_equal.
  cbn [flat_map filter]. rewrite downloadFile_settle_eq. unfold requestFails.
  destruct (axios_stream w (fst p) (snd p)); [reflexivity|].
  destruct (write_stream w (fst p) (snd p)); reflexivity.
Qed.

(** The lines of one kind that [downloadAllFiles] logs before it returns. *)
Lemma count_downloadAllFiles (f : Event -> bool) (h : nat * Link -> bool)
    links r :
  (forall l m, f (ELog l m) = true ->
               l <> LInfo \/ exists i n, m = MDownloaded i n) ->
  (forall i j, f (EAxiosStream i j) = false) ->
  (forall r p,
      length (filter f (fst (respond lib w r p)))
      + (if streams w p
         then length (filter f (fst (finish lib w r p))) else 0)
      = if h p then 1 else 0) ->
  snd (downloadAllFiles lib w links) = Ok r ->
  length (filter f (fst (downloadAllFiles lib w links)))
  = length (filter h (number 0 links)).
Proof.
  intros Hlog Hreq Hh Hr.
  assert (Hno : forall m, (forall i n, m <> MDownloaded i n) ->
                          f (ELog LInfo m) = false).
  { intros m Hm. destruct (f (ELog LInfo m)) eqn:E; [|reflexivity].
    destruct (Hlog _ _ E) as [H|(i & n & H)]; [congruence|].
    now apply Hm in H. }
  destruct (downloadAllFiles_returns lib w links r Hr) as [Hall _].
  set (none := {| success := []; failed := [] |}).
  pose proof (@count_batchLoop lib w f
                (fun p => length (filter f (fst (respond lib w none p))))
                (fun p => length (filter f (fst (finish lib w none p)))))
    as H.
  assert (Hresp : forall r p,
            length (filter f (fst (respond lib w r p)))
            = length (filter f (fst (respond lib w none p)))).
  { intros r' p. rewrite !respond_eq.
    destruct (axios_stream w (fst p) (snd p)); reflexivity. }
  assert (Hfin : forall r p,
            length (filter f (fst (finish lib w r p)))
            = length (filter f (fst (finish lib w none p)))).
  { intros r' p. rewrite !finish_eq.
    destruct (write_stream w (fst p) (snd p)); reflexivity. }
  assert (Hrq : forall ps, filter f (requestsOf lib w ps) = []).
  { induction ps as [|p ps IHps]; [reflexivity|].
    unfold requestsOf in *. cbn [flat_map app filter].
    rewrite Hno by (intros ? ? E; discriminate E). now rewrite Hreq. }
  specialize (H Hresp Hfin
                (fun k n => Hno (MProcessingBatch k n)
                              ltac:(intros ? ? E; discriminate E))
                Hrq links CONFIG_maxConcurrentDownloads (Nat.lt_0_succ _)
                (length links) 0 none ltac:(lia) Hall).
  cbn [skipn] in H.
  rewrite downloadAllFiles_eq, Hall. cbn [fst]. fold none.
  rewrite filter_app, length_app, H. cbn [filter].
  rewrite Hno by (intros ? ? E; discriminate E). cbn [length].
  rewrite Nat.add_0_r. apply sum_of_flags. intros p. apply Hh.
Qed.

End LogLines.

(** X15: in a run of [downloadAllFiles] that returns, the error lines logged
    are one per download whose request failed, and the "Successfully
    downloaded" lines are one per entry of [success].  A download whose
    request is answered and whose file cannot be written is in [failed],
    with the message of the write error, and is not among the downloads
    whose request failed: no error line is logged for it. *)
Theorem download_log_lines
    (lib : Lib) (w : World) (links : list Link) (r : Results) :
  snd (downloadAllFiles lib w links) = Ok r ->
  length (filter isErrorLog (fst (downloadAllFiles lib w links)))
  = length (filter (requestFails w) (number 0 links))
  /\ length (filter isDownloadedLog (fst (downloadAllFiles lib w links)))
     = length (success r)
  /\ (forall k link e,
        nth_error links k = Some link ->
        axios_stream w (S k) link = None ->
        write_stream w (S k) link = WError e ->
        In (mkFailed (url link) (filename link) (message e)) (failed r)
        /\ requestFails w (S k, link) = false).
Proof.
  intros Hr. split; [|split].
  - apply (count_downloadAllFiles lib w isErrorLog (requestFails w) links r);
      [| |
       |exact Hr].
    + intros [] m H; try discriminate H; left; discriminate.
    + reflexivity.
    + intros r' p. rewrite respond_eq, finish_eq.
      unfold streams, requestFails, neverCloses.
      destruct (axios_stream w (fst p) (snd p));
        destruct (write_stream w (fst p) (snd p)); reflexivity.
  - destruct (downloadAllFiles_returns lib w links r Hr) as [Hall _].
    destruct (downloadAllFiles_spec lib w links Hall)
      as (t & r' & Hrun & Hs & _).
    assert (r' = r) by (rewrite Hrun in Hr; now injection Hr). subst r'.
    rewrite (Permutation_length Hs), length_resolvedEntries.
    apply (count_downloadAllFiles lib w isDownloadedLog _ links r);
      [| |
       |exact Hr].
    + intros [] m H; try discriminate H.
      destruct m; try discriminate H. right. eauto.
    + reflexivity.
    + intros r' p. rewrite respond_eq, finish_eq.
      unfold streams, requestFails, neverCloses.
      destruct (axios_stream w (fst p) (snd p)); [reflexivity|].
      destruct (write_stream w (fst p) (snd p)); reflexivity.
  - intros k link e Hk Ha Hw. split.
    + destruct (downloadAllFiles_returns lib w links r Hr) as [Hall _].
      destruct (downloadAllFiles_spec lib w links Hall)
        as (t & r' & Hrun & _ & Hf & _).
      assert (r' = r) by (rewrite Hrun in Hr; now injection Hr). subst r'.
      apply (Permutation_in _ (Permutation_sym Hf)).
      unfold rejectedEntries. apply in_flat_map.
      exists (S k, link). split.
      * apply number_nth. exists k. auto.
      * cbn [fst snd]. rewrite downloadFile_settle_eq, Ha, Hw. now left.
    + unfold requestFails. cbn [fst snd]. now rewrite Ha.
Qed.

Lemma download_log_lines_witness :
  length (filter isErrorLog
            (fst (downloadAllFiles (libWith []) fullDiskWorld sevenLinks)))
  = length (filter (requestFails fullDiskWorld) (number 0 sevenLinks))
  /\ length (filter isDownloadedLog
               (fst (downloadAllFiles (libWith []) fullDiskWorld sevenLinks)))
     = length (success fullDiskResults)
  /\ (forall k link e,
        nth_error sevenLinks k = Some link ->
        axios_stream fullDiskWorld (S k) link = None ->
        write_stream fullDiskWorld (S k) link = WError e ->
        In (mkFailed (url link) (filename link) (message e))
           (failed fullDiskResults)
        /\ requestFails fullDiskWorld (S k, link) = false).
Proof.
  apply (download_log_lines (libWith []) fullDiskWorld sevenLinks
           fullDiskResults).
  reflexivity.
Defined.

(** The disk is full when file 3 is written: the download is in [failed],
    and no error line says so. *)
Example write_failure_is_silent :
  let run := downloadAllFiles (libWith []) fullDiskWorld sevenLinks in
  filter isErrorLog (fst run) = []
  /\ option_map (fun r => map f_filename (failed r))
       (match snd run with Ok r => Some r | _ => None end)
     = Some [js "Cjenik 3.csv"].
Proof. vm_compute. split; reflexivity. Qed.

(* ================================================================== *)
(** ** The order of the results *)
(* ================================================================== *)

Section Order.

Variable lib : Lib.
Variable w : World.

Lemma StronglySorted_app {A} (R : A -> A -> Prop) a b :
  StronglySorted R a -> StronglySorted R b ->
  (forall x y, In x a -> In y b -> R x y) ->
  StronglySorted R (a ++ b).
Proof.
  induction 1 as [|x a Ha IH Hx]; intros Hb Hab; [exact Hb|].
  cbn. constructor.
  - apply IH; [exact Hb|]. intros; apply Hab; [now right | assumption].
  - apply Forall_app. split; [exact Hx|].
    apply Forall_forall. intros y Hy. apply Hab; [now left | exact Hy].
Qed.

Lemma StronglySorted_all {A} (R : A -> A -> Prop) a :
  (forall x y, In x a -> In y a -> R x y) -> StronglySorted R a.
Proof.
  induction a as [|x a IH]; intros H; constructor.
  - apply IH. intros; apply H; now right.
  - apply Forall_forall. intros y Hy. apply H; [now left | now right].
Qed.

(** Downloads settle batch after batch. *)
Lemma completionOrder_sorted links size (size_pos : 0 < size) fuel :
  forall i,
    length links - i <= fuel ->
    (exists k, i = k * size) ->
    StronglySorted (fun p q => (fst p - 1) / size <= (fst q - 1) / size)
                   (completionOrder w size fuel i links).
Proof.
  induction fuel as [|fuel IH]; intros i Hfuel [k Hk].
  { cbn [completionOrder]. destruct (i <? length links); constructor. }
  destruct (Nat.le_gt_cases (length links) i) as [Hge|Hlt].
  { cbn [completionOrder]. rewrite (proj2 (Nat.ltb_ge _ _)) by lia.
    constructor. }
  destruct (batch_split links size size_pos i Hlt)
    as (_ & _ & Hb1 & Hb2 & Hb3).
  destruct (batchLoop_unfold lib w links size size_pos fuel i
              {| success := []; failed := [] |} Hlt) as (_ & _ & Hp1 & _).
  pose proof (completionOrder_perm lib w links size size_pos fuel (i + size)
                ltac:(lia)) as Hp2.
  cbn [completionOrder]. rewrite (proj2 (Nat.ltb_lt _ _) Hlt). cbv zeta.
  rewrite combine_seq_number.
  set (batch := firstn size (skipn i links)) in *.
  set (ps := number i batch) in *.
  assert (Hin1 : forall j x,
            In (j, x) (settleOrder w (2 * length ps) ps [] (completion w i)) ->
            i < j <= i + length batch).
  { intros j x Hx. apply (Permutation_in _ Hp1) in Hx.
    apply filter_In in Hx. destruct Hx as [Hx _].
    now apply number_bounds in Hx. }
  assert (Hin2 : forall j x,
            In (j, x) (completionOrder w size fuel (i + size) links) ->
            i + size < j).
  { intros j x Hx. apply (Permutation_in _ Hp2) in Hx.
    apply filter_In in Hx. destruct Hx as [Hx _].
    apply number_bounds in Hx. lia. }
  apply StronglySorted_app.
  - apply StronglySorted_all. intros [j x] [j' y] Hx Hy. cbn [fst].
    apply Hin1 in Hx. apply Hin1 in Hy.
    assert (Hup : (j - 1) / size < S k)
      by (apply Nat.Div0.div_lt_upper_bound; nia).
    assert (Hlow : k <= (j' - 1) / size)
      by (apply Nat.div_le_lower_bound; nia).
    lia.
  - apply IH; [lia | exists (S k); cbn; lia].
  - intros [j x] [j' y] Hx Hy. cbn [fst].
    apply Hin1 in Hx. apply Hin2 in Hy.
    assert (Hup : (j - 1) / size < S k)
      by (apply Nat.Div0.div_lt_upper_bound; nia).
    assert (Hlow : k <= (j' - 1) / size)
      by (apply Nat.div_le_lower_bound; nia).
    lia.
Qed.

End Order.

(** X16: when [downloadAllFiles] returns, the entries of [success] and of
    [failed] stand in the order in which the downloads settled: batch after
    batch, and within a batch in the order of completion (a download whose
    request fails settles then; the others when their file is ended).  So
    an entry of an earlier batch always comes before an entry of a later
    batch, in both lists. *)
Theorem results_in_completion_order
    (lib : Lib) (w : World) (links : list Link) (r : Results) :
  snd (downloadAllFiles lib w links) = Ok r ->
  let order := completionOrder w CONFIG_maxConcurrentDownloads
                 (length links) 0 links in
  r = {| success := resolvedEntries lib w order;
         failed := rejectedEntries lib w order |}
  /\ settledIndices (fst (downloadAllFiles lib w links)) = map fst order
  /\ Permutation order (number 0 links)
  /\ StronglySorted batchBefore order.
Proof.
  intros Hr order.
  destruct (downloadAllFiles_returns lib w links r Hr) as [Hall ->].
  split; [reflexivity|]. split; [|split].
  - rewrite downloadAllFiles_settled_indices.
    apply (batchLoop_indices lib w links _ (Nat.lt_0_succ _));
      [lia | exact Hall].
  - pose proof (@completionOrder_perm lib w links
                  CONFIG_maxConcurrentDownloads (Nat.lt_0_succ _)
                  (length links) 0 ltac:(lia)) as Hperm.
    cbn [skipn] in Hperm. now rewrite (forallb_filter_id _ _ Hall) in Hperm.
  - apply (completionOrder_sorted lib w links _ (Nat.lt_0_succ _));
      [lia | now exists 0].
Qed.

Lemma results_in_completion_order_witness :
  let order := completionOrder flakyWorld CONFIG_maxConcurrentDownloads
                 (length sevenLinks) 0 sevenLinks in
  flakyResults
  = {| success := resolvedEntries (libWith []) flakyWorld order;
       failed := rejectedEntries (libWith []) flakyWorld order |}
  /\ settledIndices
       (fst (downloadAllFiles (libWith []) flakyWorld sevenLinks))
     = map fst order
  /\ Permutation order (number 0 sevenLinks)
  /\ StronglySorted batchBefore order.
Proof.
  apply (results_in_completion_order (libWith []) flakyWorld sevenLinks
           flakyResults).
  reflexivity.
Defined.

(** In [flakyWorld] the request of download 2 fails before any file of its
    batch is ended. *)
Example flaky_order :
  map fst (completionOrder flakyWorld CONFIG_maxConcurrentDownloads 7 0
             sevenLinks)
  = [2; 5; 4; 3; 1; 6; 7].
Proof. vm_compute. reflexivity. Qed.

(* ================================================================== *)
(** ** What post-processing does with each file *)
(* ================================================================== *)

Section Processing.

Variable lib : Lib.
Variable w : World.





End Processing.


(** On the broken disk the copy of [b.csv] is attempted and fails: the call
    is in the trace, the file is not logged as copied. *)
Example failed_copy_is_not_logged :
  let t := fst (processDownloadedFiles (libWith []) brokenDisk threeFiles) in
  map (fun e => match e with ECopyFileSync from _ => from | _ => [] end)
      (filter isCopy t)
  = [js "/d/b.csv"; js "/d/c.csv"]
  /\ filter isCopiedLog t = [ELog LInfo (MCopied (js "c.csv"))].
Proof. vm_compute. split; reflexivity. Qed.

(** X18: for an archive, [mkdirSync] is called on the extraction directory
    [processing/<base name without .zip>] exactly when [existsSync] reports
    that it does not exist; [unzip -o "<path>" -d "<directory>"] is run
    exactly when the directory exists or the call of [mkdirSync] did not
    throw; and when [unzip] fails, its error is logged twice, as "Error
    extracting" and as "Error processing file". *)
Theorem archive_processing
    (lib : Lib) (w : World) (k : nat) (file : Downloaded) :
  isZip lib file = true ->
  let name := path_basename lib (filePath file) in
  let dir := path_join lib (CONFIG_fileProcessingDir lib w)
                       (path_basename_ext lib name (js ".zip")) in
  let cmd := js "unzip -o " ++ dquote ++ filePath file ++ dquote
             ++ js " -d " ++ dquote ++ dir ++ dquote in
  let ready := proc_existsSync w k dir
               || match proc_mkdirSync w k dir with
                  | None => true
                  | Some _ => false
                  end in
  mkdirs (fst (processFile lib w k file))
  = (if proc_existsSync w k dir then [] else [dir])
  /\ filter isUnzip (fst (processFile lib w k file))
     = (if ready then [EExecUnzip cmd] else [])
  /\ (forall e, ready = true -> exec_unzip w k cmd = Some e ->
        filter isErrorLog (fst (processFile lib w k file))
        = [ELog LError (MErrorExtracting name (message e));
           ELog LError (MErrorProcessing name (message e))]).
Proof.
  unfold isZip, processFile, processFile_try. intros Hz. cbv zeta.
  rewrite Hz.
  unfold call, log. unfold try_catch, bind, emit, ret, throw.
  destruct (proc_existsSync w k _) eqn:Ex;
    [|destruct (proc_mkdirSync w k _) eqn:Em];
    cbn [negb fst snd app orb];
    try (destruct (exec_unzip w k _) eqn:Eu);
    cbn [fst snd app mkdirs flat_map filter isUnzip isErrorLog];
    repeat split; try reflexivity;
    intros e' Hr He; congruence.
Qed.

Lemma archive_processing_witness :
  let file := mkDownloaded (js "u1") (js "a.zip") (js "/d/a.zip") in
  let name := path_basename (libWith []) (filePath file) in
  let dir := path_join (libWith []) (CONFIG_fileProcessingDir (libWith [])
                                       brokenDisk)
                       (path_basename_ext (libWith []) name (js ".zip")) in
  let cmd := js "unzip -o " ++ dquote ++ filePath file ++ dquote
             ++ js " -d " ++ dquote ++ dir ++ dquote in
  let ready := proc_existsSync brokenDisk 0 dir
               || match proc_mkdirSync brokenDisk 0 dir with
                  | None => true
                  | Some _ => false
                  end in
  mkdirs (fst (processFile (libWith []) brokenDisk 0 file))
  = (if proc_existsSync brokenDisk 0 dir then [] else [dir])
  /\ filter isUnzip (fst (processFile (libWith []) brokenDisk 0 file))
     = (if ready then [EExecUnzip cmd] else [])
  /\ (forall e, ready = true -> exec_unzip brokenDisk 0 cmd = Some e ->
        filter isErrorLog (fst (processFile (libWith []) brokenDisk 0 file))
        = [ELog LError (MErrorExtracting name (message e));
           ELog LError (MErrorProcessing name (message e))]).
Proof.
  apply (archive_processing (libWith []) brokenDisk 0
           (mkDownloaded (js "u1") (js "a.zip") (js "/d/a.zip"))).
  reflexivity.
Defined.

Lemma jseqb_eq a b : jseqb a b = true <-> a = b.
Proof.
  unfold jseqb. destruct (list_eq_dec N.eq_dec a b); split; auto.
  discriminate.
Qed.

Lemma toLowerCase_length s : length (toLowerCase s) = length s.
Proof. apply length_map. Qed.

(** X19: the test for an archive does not depend on the case of the
    letters: a file is treated as an archive exactly when its base name ends
    with four characters that lower-case to [.zip], such as [.ZIP] or
    [.Zip]. *)
Theorem archive_test_ignores_case (lib : Lib) (file : Downloaded) :
  isZip lib file = true <->
  exists stem ext,
    path_basename lib (filePath file) = stem ++ ext
    /\ toLowerCase ext = js ".zip".
Proof.
  unfold isZip, endsWith.
  set (n := path_basename lib (filePath file)).
  rewrite andb_true_iff, jseqb_eq, Nat.leb_le, toLowerCase_length. split.
  - intros [Heq Hlen].
    exists (firstn (length n - 4) n), (skipn (length n - 4) n).
    split; [symmetry; apply firstn_skipn|].
    unfold toLowerCase in *. now rewrite <- skipn_map.
  - intros (stem & ext & Hn & Hext).
    assert (Hl : length ext = 4)
      by now rewrite <- (toLowerCase_length ext), Hext.
    rewrite Hn. unfold toLowerCase in *.
    rewrite map_app, length_app, Hl, Hext.
    change (length (js ".zip")) with 4.
    replace (length stem + 4 - 4) with (length (map
      (fun c => if between 65 90 c then (c + 32)%N else c) stem))
      by (rewrite length_map; lia).
    rewrite skipn_app, skipn_all, Nat.sub_diag. cbn [skipn app].
    split; [reflexivity | lia].
Qed.

Example upper_case_archive :
  isZip (libWith [])
        (mkDownloaded (js "u") (js "CJENIK.ZIP") (js "/d/CJENIK.ZIP")) = true
  /\ isZip (libWith [])
           (mkDownloaded (js "u") (js "zip") (js "/d/zip")) = false.
Proof. split; reflexivity. Qed.

(* ================================================================== *)
(** ** Runs in which every download settles *)
(* ================================================================== *)

Lemma In_requestedIndices m t :
  In m (requestedIndices t) <-> exists u, In (EAxiosStream m u) t.
Proof.
  unfold requestedIndices. rewrite in_flat_map. split.
  - intros (e & He & Hm). destruct e; try contradiction.
    destruct Hm as [<-|[]]. eauto.
  - intros [u Hu]. exists (EAxiosStream m u). split; [exact Hu | now left].
Qed.

(** X20: when every download settles (each request fails, or is answered
    with a body that ends or a file that cannot be written),
    [downloadAllFiles] returns results with [|success| + |failed| = N]; the
    links of the entries of the two lists together are the given links, each
    as often as it was given; each download is requested once, in the order
    of the list, and settles once; and when a request of some batch is
    issued, every download of every earlier batch has settled. *)
Theorem one_outcome_per_link_when_all_settle
    (lib : Lib) (w : World) (links : list Link) :
  (forall k link, nth_error links k = Some link ->
                  stalled lib w (S k, link) = false) ->
  exists t r,
    downloadAllFiles lib w links = (t, Ok r)
    /\ length (success r) + length (failed r) = length links
    /\ Permutation
         (map linkOfDownloaded (success r) ++ map linkOfFailed (failed r))
         links
    /\ requestedIndices t = seq 1 (length links)
    /\ Permutation (settledIndices t) (seq 1 (length links))
    /\ (forall t1 j u t2, t = t1 ++ EAxiosStream j u :: t2 ->
        forall m, 1 <= m <= length links -> batchOf m < batchOf j ->
                  exists b, In (ESettled m b) t1).
Proof.
  intros Hall. apply all_settle_iff in Hall.
  destruct (downloadAllFiles_spec lib w links Hall)
    as (t & r & Hrun & Hs & Hf & Hreq & Hset).
  assert (Hperm : Permutation
            (map linkOfDownloaded (success r) ++ map linkOfFailed (failed r))
            links).
  { rewrite (Permutation_map linkOfDownloaded Hs),
      (Permutation_map linkOfFailed Hf), entries_partition.
    now rewrite (forallb_filter_id _ _ Hall), map_snd_number. }
  eexists _, r. split; [exact Hrun|].
  split; [|split; [exact Hperm|split; [|split]]].
  - apply Permutation_length in Hperm.
    now rewrite length_app, !length_map in Hperm.
  - rewrite requestedIndices_app, Hreq. cbn. now rewrite app_nil_r.
  - rewrite settledIndices_app. cbn. now rewrite app_nil_r.
  - intros t1 j u t2 Heq m Hm Hdiv.
    apply (downloadAllFiles_batch_order lib w links t1 j u t2);
      [now rewrite Hrun | exact Hm | exact Hdiv].
Qed.

Lemma one_outcome_per_link_when_all_settle_witness :
  exists t r,
    downloadAllFiles (libWith []) flakyWorld sevenLinks = (t, Ok r)
    /\ length (success r) + length (failed r) = length sevenLinks
    /\ Permutation
         (map linkOfDownloaded (success r) ++ map linkOfFailed (failed r))
         sevenLinks
    /\ requestedIndices t = seq 1 (length sevenLinks)
    /\ Permutation (settledIndices t) (seq 1 (length sevenLinks))
    /\ (forall t1 j u t2, t = t1 ++ EAxiosStream j u :: t2 ->
        forall m, 1 <= m <= length sevenLinks -> batchOf m < batchOf j ->
                  exists b, In (ESettled m b) t1).
Proof.
  apply (one_outcome_per_link_when_all_settle (libWith []) flakyWorld
           sevenLinks).
  intros k link Hk.
  do 7 (destruct k as [|k]; [injection Hk as <-; reflexivity|]).
  destruct k; discriminate Hk.
Defined.

(** X21: when every download settles, a download that fails is isolated:
    the entry of its link is in [failed]; [success] consists of the entries
    of the downloads that resolved and of nothing else, so that, the links
    being distinct, the failed link is not in it; every other link whose own
    download resolves is in [success], in the same batch or a later one; and
    every download of the list is requested and settles. *)
Theorem settled_failure_isolated
    (lib : Lib) (w : World) (links : list Link)
    (k : nat) (link : Link) (e : JsError) :
  (forall k' link', nth_error links k' = Some link' ->
                    stalled lib w (S k', link') = false) ->
  nth_error links k = Some link ->
  snd (downloadFile_settle lib w link (S k)) = Throw e ->
  exists t r,
    downloadAllFiles lib w links = (t, Ok r)
    /\ In (mkFailed (url link) (filename link) (message e)) (failed r)
    /\ Permutation (success r) (resolvedEntries lib w (number 0 links))
    /\ (NoDup links ->
        forall d, In d (success r) -> linkOfDownloaded d <> link)
    /\ (forall k' link' path,
          nth_error links k' = Some link' ->
          snd (downloadFile_settle lib w link' (S k')) = Ok path ->
          In (mkDownloaded (url link') (filename link') path) (success r))
    /\ (forall m, 1 <= m <= length links ->
          (exists u, In (EAxiosStream m u) t)
          /\ (exists b, In (ESettled m b) t)).
Proof.
  intros Hall Hk He. apply all_settle_iff in Hall.
  destruct (downloadAllFiles_spec lib w links Hall)
    as (t & r & Hrun & Hs & Hf & Hreq & Hset).
  eexists _, r. split; [exact Hrun|].
  split; [|split; [exact Hs|split; [|split]]].
  - apply (Permutation_in _ (Permutation_sym Hf)).
    unfold rejectedEntries. apply in_flat_map.
    exists (S k, link). split.
    + apply number_nth. exists k. auto.
    + cbn [fst snd]. rewrite He. now left.
  - intros Hnd d Hd Heq.
    apply (Permutation_in _ Hs) in Hd.
    unfold resolvedEntries in Hd. apply in_flat_map in Hd.
    destruct Hd as ([j l] & Hin & Hd). cbn [fst snd] in Hd.
    apply number_nth in Hin. destruct Hin as (k' & -> & Hk').
    destruct (snd (downloadFile_settle lib w l (S (0 + k')))) as [path| |]
      eqn:Hout; try contradiction.
    destruct Hd as [<-|[]]. destruct l as [u f].
    subst link. unfold linkOfDownloaded in *.
    cbn [d_url d_filename url filename] in *.
    assert (k' = k).
    { apply (proj1 (NoDup_nth_error links) Hnd).
      - apply nth_error_Some. congruence.
      - congruence. }
    subst k'. cbn in Hout. congruence.
  - intros k' link' path Hk' Hok.
    apply (Permutation_in _ (Permutation_sym Hs)).
    unfold resolvedEntries. apply in_flat_map.
    exists (S k', link'). split.
    + apply number_nth. exists k'. auto.
    + cbn [fst snd]. rewrite Hok. now left.
  - intros m Hm.
    assert (Hin : In m (seq 1 (length links))) by (apply in_seq; lia).
    split.
    + rewrite <- Hreq in Hin. apply In_requestedIndices in Hin.
      destruct Hin as [u Hu]. exists u. apply in_or_app. now left.
    + apply (Permutation_in _ (Permutation_sym Hset)) in Hin.
      apply In_settledIndices in Hin.
      destruct Hin as [b Hb]. exists b. apply in_or_app. now left.
Qed.

Lemma settled_failure_isolated_witness :
  exists t r,
    downloadAllFiles (libWith []) flakyWorld sevenLinks = (t, Ok r)
    /\ In (mkFailed (url (linkNo 2)) (filename (linkNo 2))
                    (message ETIMEDOUT)) (failed r)
    /\ Permutation (success r)
         (resolvedEntries (libWith []) flakyWorld (number 0 sevenLinks))
    /\ (NoDup sevenLinks ->
        forall d, In d (success r) -> linkOfDownloaded d <> linkNo 2)
    /\ (forall k' link' path,
          nth_error sevenLinks k' = Some link' ->
          snd (downloadFile_settle (libWith []) flakyWorld link' (S k'))
          = Ok path ->
          In (mkDownloaded (url link') (filename link') path) (success r))
    /\ (forall m, 1 <= m <= length sevenLinks ->
          (exists u, In (EAxiosStream m u) t)
          /\ (exists b, In (ESettled m b) t)).
Proof.
  apply (settled_failure_isolated (libWith []) flakyWorld sevenLinks
           1 (linkNo 2) ETIMEDOUT); [|reflexivity|reflexivity].
  intros k link Hk.
  do 7 (destruct k as [|k]; [injection Hk as <-; reflexivity|]).
  destruct k; discriminate Hk.
Defined.

(** X22: in every run of [downloadAllFiles], also one that never returns:
    when a request is issued, every download of every earlier batch has
    settled; and a download that never settles is never reported as
    settled, while no request of a later batch is ever issued. *)
Theorem batches_wait_for_each_other
    (lib : Lib) (w : World) (links : list Link) :
  (forall t1 j u t2,
      fst (downloadAllFiles lib w links) = t1 ++ EAxiosStream j u :: t2 ->
      forall m, 1 <= m <= length links -> batchOf m < batchOf j ->
                exists b, In (ESettled m b) t1)
  /\ (forall k link,
        nth_error links k = Some link ->
        stalled lib w (S k, link) = true ->
        (forall b,
            ~ In (ESettled (S k) b) (fst (downloadAllFiles lib w links)))
        /\ (forall m u,
              batchOf (S k) < batchOf m ->
              ~ In (EAxiosStream m u) (fst (downloadAllFiles lib w links)))).
Proof.
  split.
  - apply downloadAllFiles_batch_order.
  - intros k link Hk Hst. split.
    + intros b. now apply (stalled_never_settles lib w links k link).
    + intros m u Hb.
      now apply (stalled_blocks_later_batches lib w links k link).
Qed.

Lemma batches_wait_for_each_other_witness :
  (exists b,
      In (ESettled 3 b)
         (firstn 27 (fst (downloadAllFiles (libWith []) flakyWorld
                            sevenLinks))))
  /\ (forall m u,
        batchOf 2 < batchOf m ->
        ~ In (EAxiosStream m u)
             (fst (downloadAllFiles (libWith []) stallingWorld sevenLinks))).
Proof.
  split.
  - apply (proj1 (batches_wait_for_each_other (libWith []) flakyWorld
                    sevenLinks)
             (firstn 27 (fst (downloadAllFiles (libWith []) flakyWorld
                                sevenLinks)))
             6 (url (linkNo 6))
             (skipn 28 (fst (downloadAllFiles (libWith []) flakyWorld
                               sevenLinks)))).
    + reflexivity.
    + cbn. lia.
    + vm_compute. lia.
  - apply (proj2 (proj2 (batches_wait_for_each_other (libWith [])
                           stallingWorld sevenLinks)
                     1 (linkNo 2) eq_refl eq_refl)).
Defined.
